(** * TransUNet inference plugin (TransUNet_process.py): model and properties

    The plugin's [run] method loads a YAML configuration, lazily builds a
    segmentation network, runs one forward pass on the input image, decodes
    the logits into a label map, builds a seeded colour map and renders a
    legend.  The development below embeds that method (and the helper class
    [Normalize] and the method [draw_legend]) and states the properties of
    the specification over the embedding.

    Conventions.
    - A torch tensor or numpy array is a shape together with an indexing
      function ([tensor]); the library operations used by the source
      (permute, argmax, nearest resize, squeeze) are written out on that
      representation.  The source index of the nearest resize is computed in
      binary32 arithmetic, as the library does.
    - Floating-point scalars are read as the real numbers they denote ([R]);
      [Normalize] is generic in the scalar type so that it can also be run on
      [Q].  The softmax kernel, which rounds, is a collaborator.
    - Python exceptions are values of [exn]; the attributes of the process
      object, the shared parameter object and the host outputs live in
      [World], and a raised exception keeps every mutation made before it.
    - Collaborators whose code is not part of the plugin (the YAML file
      system, the network constructor and its forward pass, bicubic
      interpolation, Python's random generator) are section variables. *)

From Stdlib Require Import String.
From Stdlib Require Import List ZArith Bool Arith Lia Reals Lra QArith SpecFloat.
From Stdlib Require Import FunctionalExtensionality.
Import ListNotations.

Close Scope Q_scope.
Close Scope R_scope.
Open Scope nat_scope.

Set Implicit Arguments.

(** ** Exceptions and the result type *)

Inductive exn : Type :=
| FileNotFoundError
| YAMLError
| AttributeError
| TypeError
| ValueError
| IndexError
| RuntimeError
| ZeroDivisionError.

Definition result (A : Type) : Type := (exn + A)%type.

Definition rbind {A B : Type} (r : result A) (k : A -> result B) : result B :=
  match r with
  | inl e => inl e
  | inr a => k a
  end.

(** Attribute access on a [ConfigDict]: a missing key raises [AttributeError]. *)
Definition getattr {A : Type} (field : option A) : result A :=
  match field with
  | Some a => inr a
  | None => inl AttributeError
  end.

(** Attribute access on [self.cfg], which is [None] until a file is loaded. *)
Definition cfg_attr {C A : Type} (c : option C) (field : C -> option A) : result A :=
  match c with
  | Some c => getattr (field c)
  | None => inl AttributeError
  end.

(** ** Tensors *)

Module Tensor.

Record tensor (A : Type) : Type := mk
    { shape : list nat;
      elem : list nat -> A }.

Definition tmap {A B : Type} (f : A -> B) (t : tensor A) : tensor B :=
    {| shape := shape t; elem := fun idx => f (elem t idx) |}.

  (** [torch.tensor([x])]: a new leading axis of length one. *)
Definition stack1 {A : Type} (t : tensor A) : tensor A :=
    {| shape := 1 :: shape t; elem := fun idx => elem t (tl idx) |}.

Fixpoint index_of (d : nat) (dims : list nat) : nat :=
    match dims with
    | [] => 0
    | d' :: rest => if Nat.eqb d d' then 0 else S (index_of d rest)
    end.

  (** [t.permute(dims)]: axis [p] of the result is axis [dims[p]] of [t]. *)
Definition permute {A : Type} (dims : list nat) (t : tensor A) : tensor A :=
    {| shape := map (fun d => nth d (shape t) 0) dims;
       elem := fun idx =>
         elem t (map (fun d => nth (index_of d dims) idx 0)
                     (seq 0 (length dims))) |}.

  (** [t.squeeze()]: every axis of length one is removed. *)
Definition squeeze_shape (s : list nat) : list nat :=
    filter (fun d => negb (Nat.eqb d 1)) s.

Fixpoint unsqueeze_index (s idx : list nat) : list nat :=
    match s with
    | [] => []
    | d :: s' =>
        if Nat.eqb d 1 then 0 :: unsqueeze_index s' idx
        else match idx with
             | [] => 0 :: unsqueeze_index s' []
             | i :: idx' => i :: unsqueeze_index s' idx'
             end
    end.

Definition squeeze {A : Type} (t : tensor A) : tensor A :=
    {| shape := squeeze_shape (shape t);
       elem := fun idx => elem t (unsqueeze_index (shape t) idx) |}.

  (** The binary32 number nearest to an integer, and the integer part
      (towards minus infinity) of a finite binary32 number. *)
Definition f32_of_Z (z : Z) : spec_float := binary_normalize 24 128 z 0 false.

Definition f32_floor (x : spec_float) : Z :=
    match x with
    | S754_finite s m e =>
        let z := if s then Z.neg m else Z.pos m in
        if (0 <=? e)%Z then (z * 2 ^ e)%Z else (z / 2 ^ (- e))%Z
    | _ => 0%Z
    end.

  (** Source index of nearest-neighbour interpolation, in single precision:
      [min(int(floorf(dst * scale)), in - 1)] with
      [scale = float(in) / out]. *)
Definition nearest_index (in_size out_size dst : nat) : nat :=
    let scale := SFdiv 24 128 (f32_of_Z (Z.of_nat in_size))
                       (f32_of_Z (Z.of_nat out_size)) in
    Nat.min (Z.to_nat (f32_floor (SFmul 24 128 (f32_of_Z (Z.of_nat dst)) scale)))
            (in_size - 1).

  (** Index of the first maximal element, as [torch.argmax] returns it. *)
Fixpoint argmax_from {A : Type} (gtb : A -> A -> bool)
           (best : A) (besti i : nat) (l : list A) : nat :=
    match l with
    | [] => besti
    | x :: l' =>
        if gtb x best then argmax_from gtb x i (S i) l'
        else argmax_from gtb best besti (S i) l'
    end.

Definition argmax {A : Type} (gtb : A -> A -> bool) (l : list A) : nat :=
    match l with
    | [] => 0
    | x :: l' => argmax_from gtb x 0 1 l'
    end.

  (** The values along axis 1 at a fixed position of the other axes. *)
Definition lane {A : Type} (t : tensor A) (b : nat) (rest : list nat) : list A :=
    map (fun k => elem t (b :: k :: rest)) (seq 0 (nth 1 (shape t) 0)).

  (** [torch.argmax(t, dim=1, keepdim=True)]. *)
Definition argmax_dim1 {A : Type} (gtb : A -> A -> bool) (t : tensor A)
    : result (tensor nat) :=
    match shape t with
    | n :: c :: rest =>
        if Nat.eqb c 0 then inl IndexError
        else inr {| shape := n :: 1 :: rest;
                    elem := fun idx => argmax gtb (lane t (hd 0 idx) (tl (tl idx))) |}
    | _ => inl IndexError
    end.

End Tensor.
Import Tensor.

(** ** Real-valued operations: comparison, and softmax in exact arithmetic *)

Definition Rgtb (x y : R) : bool := if Rlt_dec y x then true else false.

Definition Rsum (l : list R) : R := fold_right Rplus 0%R l.

Definition softmax (l : list R) : list R :=
  map (fun x => (exp x / Rsum (map exp l))%R) l.

(** ** The [Normalize] callable *)

Section NormalizeDef.

Variable A : Type.
Variables sub div : A -> A -> A.

  (** [t.sub_(m).div_(s)] on the slice [image[b]], in place. *)
Definition sub_div_slice (b : nat) (m s : A) (image : tensor A) : tensor A :=
    {| shape := shape image;
       elem := fun idx =>
         match idx with
         | i :: _ => if Nat.eqb i b then div (sub (elem image idx) m) s
                     else elem image idx
         | [] => elem image idx
         end |}.

  (** [for t, m, s in zip(image, mean, std): t.sub_(m).div_(s)]; iterating a
      tensor walks its first axis, and [zip] stops at the shortest operand. *)
Definition Normalize_call (mean std : list A) (image : tensor A) : tensor A :=
    fold_left (fun img bms => sub_div_slice (fst bms) (fst (snd bms)) (snd (snd bms)) img)
              (combine (seq 0 (hd 0 (shape image))) (combine mean std))
              image.

End NormalizeDef.

Definition mean_Q : list Q := [123.675; 116.280; 103.530]%Q.
Definition std_Q : list Q := [58.395; 57.120; 57.375]%Q.
Definition mean_R : list R := [123.675; 116.280; 103.530]%R.
Definition std_R : list R := [58.395; 57.120; 57.375]%R.

(** ** Data model of the plugin *)

(** The [ConfigDict] built from the YAML file; [None] is a missing key.
    [class_names] and [pretrained_path] may be present and null
    ([Some None]); [img_size] and [n_classes], when present, are taken to
    hold the integers the network constructor and the resize need. *)
Record ConfigDict : Type :=
  { img_size : option nat;
    n_classes : option nat;
    class_names : option (option (list string));
    pretrained_path : option (option string) }.

Inductive device : Type := CPU | CUDA.

Inductive weights_state : Type :=
| RandomInit
| LoadFailed (path : string)
| Loaded (path : string).

(** A network object.  [mid] is the identity of the Python object; a fresh
    module is in training mode until [eval()] is called. *)
Record Model : Type :=
  { mid : nat;
    built_from : ConfigDict;
    net_img_size : nat;
    net_num_classes : nat;
    on_device : device;
    weights : weights_state;
    training : bool }.

Definition to_cuda (m : Model) : Model :=
  {| mid := mid m; built_from := built_from m; net_img_size := net_img_size m;
     net_num_classes := net_num_classes m; on_device := CUDA;
     weights := weights m; training := training m |}.

Definition with_weights (ws : weights_state) (m : Model) : Model :=
  {| mid := mid m; built_from := built_from m; net_img_size := net_img_size m;
     net_num_classes := net_num_classes m; on_device := on_device m;
     weights := ws; training := training m |}.

Definition eval_mode (m : Model) : Model :=
  {| mid := mid m; built_from := built_from m; net_img_size := net_img_size m;
     net_num_classes := net_num_classes m; on_device := on_device m;
     weights := weights m; training := false |}.

(** The attributes of [TransUNetProcess] that [run] reads or writes
    ([self.update] is initialised and never used again; it is left out). *)
Record Self : Type :=
  { model : option Model;
    cfg : option ConfigDict;
    colors : option (list (list Z));
    classes : option (list string) }.

(** [TransUNetParam], with the [update] attribute the host sets on it.  A
    parameter object on which that attribute has never been stored (reading
    it raises [AttributeError]) is not among the values of this type. *)
Record Param : Type :=
  { configFile : string;
    modelFile : string;
    update : bool }.

(** Drawing calls issued on the legend canvas. *)
Inductive draw_op : Type :=
| Rectangle (pt1 pt2 : Z * Z) (color : list Z) (thickness : Z)
| PutText (text : string) (org : Z * Z) (fontscale : Z) (color : list Z) (thickness : Z).

(** The legend: a canvas [np.full((img_h, img_w, 3), 255)] and the drawing
    calls applied to it, in order. *)
Record legend : Type :=
  { legend_h : Z;
    legend_w : Z;
    fill_value : Z;
    ops : list draw_op }.

(** What the run hands to the host: output 0 (label image), the colour map
    bound to output 1, the forwarded input image, output 2 (legend). *)
Record Outputs : Type :=
  { mask_image : option (tensor nat);
    color_map : option (list (list Z));
    forwarded : option (tensor Z);
    graph_image : option legend }.

(** ** Collaborators outside the plugin

    None of the collaborators below draws from Python's module-level random
    generator: its state is threaded through [run] only. *)

Class Host : Type :=
  { (** [random]: the generator state, [random.seed] and [random.randint]. *)
    rng_state : Type;
    random_seed : Z -> rng_state;
    random_randint : Z -> Z -> rng_state -> Z * rng_state;
    (** [open(path)], [yaml.load] and [ConfigDict(...)]. *)
    yaml_load : string -> result ConfigDict;
    (** The constructor [ViT_seg(cfg, img_size, num_classes)]: [Some e] when
        it raises [e]. *)
    ViT_seg : ConfigDict -> nat -> nat -> option exn;
    cuda_is_available : bool;
    isfile : string -> bool;
    (** [model.load_state_dict(torch.load(path))]: [Some e] when it raises. *)
    load_state_dict : Model -> string -> option exn;
    (** The forward pass [model(x)]. *)
    forward : Model -> tensor R -> result (tensor R);
    (** The single-precision kernel of [torch.softmax] on the values of one
        lane of the class axis; its results are rounded. *)
    softmax_kernel : list R -> list R;
    (** The values of the bicubic interpolation of a tensor to a given size. *)
    bicubic : tensor R -> nat -> nat -> list nat -> R }.

(** [torch.softmax(t, dim=1)]: the kernel applied to every lane of axis 1. *)
Definition softmax_dim1 `{Host} (t : tensor R) : result (tensor R) :=
  match shape t with
  | _ :: _ :: _ =>
      inr {| shape := shape t;
             elem := fun idx =>
               nth (nth 1 idx 0)
                   (softmax_kernel (lane t (hd 0 idx) (tl (tl idx)))) 0%R |}
  | _ => inl IndexError
  end.

(** ** torchvision's [Resize] on a tensor [(n, c, h, w)] or [(c, h, w)]

    The last two axes are resized.  The plugin feeds the bicubic resize with
    a four-axis tensor; the nearest resize also takes an unbatched tensor of
    three axes.  Other ranks are reported as [RuntimeError].  Interpolation
    needs a non-empty channel axis and non-empty input and output sizes. *)

Definition empty_size (c h w oh ow : nat) : bool :=
  Nat.eqb c 0 || Nat.eqb h 0 || Nat.eqb w 0 || Nat.eqb oh 0 || Nat.eqb ow 0.

Definition Resize_bicubic `{Host} (size : nat * nat) (t : tensor R)
  : result (tensor R) :=
  match shape t with
  | [n; c; h; w] =>
      if empty_size c h w (fst size) (snd size) then inl RuntimeError
      else inr {| shape := [n; c; fst size; snd size];
                  elem := bicubic t (fst size) (snd size) |}
  | _ => inl RuntimeError
  end.

Definition Resize_nearest {A : Type} (size : nat * nat) (t : tensor A)
  : result (tensor A) :=
  match shape t with
  | [n; c; h; w] =>
      if empty_size c h w (fst size) (snd size) then inl RuntimeError
      else inr {| shape := [n; c; fst size; snd size];
                  elem := fun idx =>
                    match idx with
                    | [b; k; i; j] =>
                        elem t [b; k; nearest_index h (fst size) i;
                                nearest_index w (snd size) j]
                    | _ => elem t idx
                    end |}
  | [c; h; w] =>
      if empty_size c h w (fst size) (snd size) then inl RuntimeError
      else inr {| shape := [c; fst size; snd size];
                  elem := fun idx =>
                    match idx with
                    | [k; i; j] =>
                        elem t [k; nearest_index h (fst size) i;
                                nearest_index w (snd size) j]
                    | _ => elem t idx
                    end |}
  | _ => inl RuntimeError
  end.

(** ** The inference pipeline (lines 131-152 of [run]) *)

Section Pipeline.

Context `{Host}.

  (** From the source image to the tensor handed to the network; [c] is
    [self.cfg]. *)
Definition preprocess (c : option ConfigDict) (srcImage : tensor Z)
  : result (nat * nat * tensor R) :=
  match shape srcImage with
  | [h; w; _] =>
      rbind (cfg_attr c img_size) (fun size =>
      let x := tmap IZR (permute [0; 3; 1; 2] (stack1 srcImage)) in
      rbind (Resize_bicubic (size, size) x) (fun x =>
      rbind (cfg_attr c pretrained_path) (fun pp =>
      inr (h, w,
           match pp with
           | Some _ => Normalize_call Rminus Rdiv mean_R std_R x
           | None => x
           end))))
  | _ => inl ValueError
  end.

(** From the logits to the label image. *)
Definition decode (h w : nat) (pred : tensor R) : result (tensor nat) :=
    rbind (softmax_dim1 pred) (fun sm =>
    rbind (argmax_dim1 Rgtb sm) (fun am =>
    rbind (Resize_nearest (h, w) am) (fun up =>
    inr (squeeze up)))).

Definition infer (m : Model) (c : option ConfigDict) (srcImage : tensor Z)
    : result (tensor nat) :=
    rbind (preprocess c srcImage) (fun hwx =>
    rbind (forward m (snd hwx)) (fun pred =>
    decode (fst (fst hwx)) (snd (fst hwx)) pred)).

End Pipeline.

(** ** The legend (method [draw_legend]) *)

(** [self.classes[i]]. *)
Definition class_name_at (names : option (list string)) (i : nat) : result string :=
  match names with
  | None => inl TypeError
  | Some l => match nth_error l i with
              | Some s => inr s
              | None => inl IndexError
              end
  end.

(** The body of the [for i, c in enumerate(self.colors)] loop, from index [i]. *)
Fixpoint legend_rows (names : option (list string)) (rectangle_height rectangle_width : Z)
         (i : nat) (cs : list (list Z)) : result (list draw_op) :=
  match cs with
  | [] => inr []
  | c :: cs' =>
      let offset_x := 10%Z in
      let offset_y := 5%Z in
      let interline := 5%Z in
      let r := Rectangle
                 (offset_x, Z.of_nat i * rectangle_height + offset_y + interline)%Z
                 (offset_x + rectangle_width,
                  (Z.of_nat i + 1) * rectangle_height + offset_y - interline)%Z
                 c (-1)%Z in
      rbind (class_name_at names i) (fun name =>
      let t := PutText name
                 (3 * offset_x + rectangle_width,
                  (Z.of_nat i + 1) * rectangle_height + offset_y - interline
                  - rectangle_height / 3)%Z
                 1%Z [0; 0; 0]%Z 2%Z in
      rbind (legend_rows names rectangle_height rectangle_width (S i) cs') (fun rest =>
      inr (r :: t :: rest)))
  end.

Definition draw_legend (s : Self) : result legend :=
  let img_h := 1000%Z in
  let img_w := 1000%Z in
  let max_height := 100%Z in
  match colors s with
  | None => inl TypeError
  | Some cs =>
      if Nat.eqb (length cs) 0 then inl ZeroDivisionError
      else
        let rectangle_height := Z.min max_height (img_h / Z.of_nat (length cs)) in
        let rectangle_width := (img_w / 3)%Z in
        rbind (legend_rows (classes s) rectangle_height rectangle_width 0 cs)
              (fun l => inr {| legend_h := img_h; legend_w := img_w;
                               fill_value := 255%Z; ops := l |})
  end.

(** The filled rectangles among drawing calls, in drawing order. *)
Definition rects_of (l : list draw_op) : list (Z * Z * (Z * Z) * list Z) :=
  flat_map (fun o => match o with
                     | Rectangle p1 p2 c _ => [(p1, p2, c)]
                     | PutText _ _ _ _ _ => []
                     end) l.

Definition rectangles (l : legend) : list (Z * Z * (Z * Z) * list Z) :=
  rects_of (ops l).

(** ** The state threaded through [run] *)

Section Process.

Context `{Host}.

(** [next_id] numbers the network objects constructed so far and
    [forward_calls] counts the forward passes that were started. *)
Record World : Type :=
  { self : Self;
    param : Param;
    outputs : Outputs;
    rng : rng_state;
    next_id : nat;
    forward_calls : nat }.

Definition M (A : Type) : Type := World -> result A * World.

Definition ret {A : Type} (a : A) : M A := fun w => (inr a, w).

Definition raise {A : Type} (e : exn) : M A := fun w => (inl e, w).

Definition bind {A B : Type} (m : M A) (k : A -> M B) : M B :=
  fun w => match m w with
           | (inl e, w') => (inl e, w')
           | (inr a, w') => k a w'
           end.

Definition lift {A : Type} (r : result A) : M A := fun w => (r, w).

Definition get_self : M Self := fun w => (inr (self w), w).
Definition get_param : M Param := fun w => (inr (param w), w).

Definition put_self (s : Self) : M unit :=
  fun w => (inr tt, {| self := s; param := param w; outputs := outputs w;
                       rng := rng w; next_id := next_id w;
                       forward_calls := forward_calls w |}).

Definition put_param (p : Param) : M unit :=
  fun w => (inr tt, {| self := self w; param := p; outputs := outputs w;
                       rng := rng w; next_id := next_id w;
                       forward_calls := forward_calls w |}).

Definition put_outputs (f : Outputs -> Outputs) : M unit :=
  fun w => (inr tt, {| self := self w; param := param w; outputs := f (outputs w);
                       rng := rng w; next_id := next_id w;
                       forward_calls := forward_calls w |}).

Definition set_model (m : option Model) : M unit :=
  bind get_self (fun s =>
  put_self {| model := m; cfg := cfg s; colors := colors s; classes := classes s |}).

Definition set_cfg (c : option ConfigDict) : M unit :=
  bind get_self (fun s =>
  put_self {| model := model s; cfg := c; colors := colors s; classes := classes s |}).

Definition set_colors (cs : option (list (list Z))) : M unit :=
  bind get_self (fun s =>
  put_self {| model := model s; cfg := cfg s; colors := cs; classes := classes s |}).

Definition set_classes (l : option (list string)) : M unit :=
  bind get_self (fun s =>
  put_self {| model := model s; cfg := cfg s; colors := colors s; classes := l |}).

Definition set_update (b : bool) : M unit :=
  bind get_param (fun p =>
  put_param {| configFile := configFile p; modelFile := modelFile p; update := b |}).

(** [random.seed(a)] and [random.randint(a, b)] on the module-level generator. *)
Definition seed (a : Z) : M unit :=
  fun w => (inr tt, {| self := self w; param := param w; outputs := outputs w;
                       rng := random_seed a; next_id := next_id w;
                       forward_calls := forward_calls w |}).

Definition randint (a b : Z) : M Z :=
  fun w => let vg := random_randint a b (rng w) in
           (inr (fst vg), {| self := self w; param := param w; outputs := outputs w;
                             rng := snd vg; next_id := next_id w;
                             forward_calls := forward_calls w |}).

(** The constructor call: a fresh object in training mode on the CPU. *)
Definition construct (c : ConfigDict) (size n : nat) : M Model :=
  fun w => match ViT_seg c size n with
           | Some e => (inl e, w)
           | None =>
               (inr {| mid := next_id w; built_from := c; net_img_size := size;
                       net_num_classes := n; on_device := CPU;
                       weights := RandomInit; training := true |},
                {| self := self w; param := param w; outputs := outputs w;
                   rng := rng w; next_id := S (next_id w);
                   forward_calls := forward_calls w |})
           end.

(** A method call that mutates the object [self.model] refers to. *)
Definition update_model (f : Model -> Model) : M unit :=
  bind get_self (fun s =>
  match model s with
  | Some m => set_model (Some (f m))
  | None => raise AttributeError
  end).

(** [self.model.load_state_dict(torch.load(path))]; when it raises, the
    parameters of the object may already have been overwritten in part. *)
Definition load_weights (path : string) : M unit :=
  bind get_self (fun s =>
  match model s with
  | Some m =>
      match load_state_dict m path with
      | Some e => bind (set_model (Some (with_weights (LoadFailed path) m)))
                       (fun _ => raise e)
      | None => set_model (Some (with_weights (Loaded path) m))
      end
  | None => raise AttributeError
  end).

(** [pred = self.model(srcImage)]. *)
Definition call_forward (m : Model) (x : tensor R) : M (tensor R) :=
  fun w => (forward m x,
            {| self := self w; param := param w; outputs := outputs w;
               rng := rng w; next_id := next_id w;
               forward_calls := S (forward_calls w) |}).

Definition when (b : bool) (m : M unit) : M unit := if b then m else ret tt.

Definition is_None {A : Type} (o : option A) : bool :=
  match o with None => true | Some _ => false end.

Notation "x <- m ;; k" := (bind m (fun x => k))
  (at level 61, m at next level, right associativity).
Notation "m ;;; k" := (bind m (fun _ => k))
  (at level 61, right associativity).

(** Lines 111-115: the configuration. *)
Definition load_config : M unit :=
  s <- get_self ;;
  p <- get_param ;;
  when ((is_None (cfg s) || update p) && negb (String.eqb (configFile p) ""))
       (c <- lift (yaml_load (configFile p)) ;;
        set_cfg (Some c) ;;;
        names <- lift (getattr (class_names c)) ;;
        set_classes names).

(** Lines 117-128: the network. *)
Definition build_model : M unit :=
  s <- get_self ;;
  p <- get_param ;;
  match cfg s with
  | Some c =>
      when (is_None (model s) || update p)
           (size <- lift (getattr (img_size c)) ;;
            n <- lift (getattr (n_classes c)) ;;
            m <- construct c size n ;;
            set_model (Some m) ;;;
            when cuda_is_available (update_model to_cuda) ;;;
            when (isfile (modelFile p)) (load_weights (modelFile p)) ;;;
            update_model eval_mode)
  | None => ret tt
  end.

(** One iteration of the colour loop (line 165). *)
Definition append_color : M unit :=
  r <- randint 0 255 ;;
  g <- randint 0 255 ;;
  b <- randint 0 255 ;;
  s <- get_self ;;
  match colors s with
  | Some l => set_colors (Some (l ++ [[r; g; b; 255%Z]]))
  | None => raise AttributeError
  end.

Fixpoint repeatM (n : nat) (m : M unit) : M unit :=
  match n with
  | O => ret tt
  | S n' => m ;;; repeatM n' m
  end.

(** Lines 161-168: the colour map. *)
Definition build_colors : M unit :=
  s <- get_self ;;
  p <- get_param ;;
  when (is_None (colors s) || update p)
       (match classes s with
        | None => raise TypeError
        | Some names =>
            set_colors (Some [[0; 0; 0]%Z]) ;;;
            repeatM (length names - 1) append_color ;;;
            s' <- get_self ;;
            put_outputs (fun o => {| mask_image := mask_image o;
                                     color_map := colors s';
                                     forwarded := forwarded o;
                                     graph_image := graph_image o |})
        end).

(** Lines 131-158: the forward pass and the label image of output 0. *)
Definition predict (m : Model) (img : tensor Z) : M unit :=
  s <- get_self ;;
  hwx <- lift (preprocess (cfg s) img) ;;
  pred <- call_forward m (snd hwx) ;;
  dstImage <- lift (decode (fst (fst hwx)) (snd (fst hwx)) pred) ;;
  put_outputs (fun o => {| mask_image := Some dstImage;
                           color_map := color_map o;
                           forwarded := forwarded o;
                           graph_image := graph_image o |}).

(** Lines 169-172: the forwarded image, the legend, and the reset of the
    update flag. *)
Definition publish (img : tensor Z) : M unit :=
  put_outputs (fun o => {| mask_image := mask_image o;
                           color_map := color_map o;
                           forwarded := Some img;
                           graph_image := graph_image o |}) ;;;
  s <- get_self ;;
  lg <- lift (draw_legend s) ;;
  put_outputs (fun o => {| mask_image := mask_image o;
                           color_map := color_map o;
                           forwarded := forwarded o;
                           graph_image := Some lg |}) ;;;
  set_update false.

(** Lines 130-172. *)
Definition inference (srcImage : option (tensor Z)) : M unit :=
  s <- get_self ;;
  match model s, srcImage with
  | Some m, Some img => predict m img ;;; build_colors ;;; publish img
  | _, _ => ret tt
  end.

(** The method [run]; [srcImage] is what [self.getInput(0).getImage()]
    returns. *)
Definition run (srcImage : option (tensor Z)) : M unit :=
  seed 10 ;;;
  load_config ;;;
  build_model ;;;
  inference srcImage.

(** The host stores new parameter values on the parameter object. *)
Definition set_params (p : Param) (w : World) : World := snd (put_param p w).

(** The state of a freshly created process with the given parameters; [g] is
    the state the module-level generator happens to be in. *)
Definition init_world (p : Param) (g : rng_state) : World :=
  {| self := {| model := None; cfg := None; colors := None; classes := None |};
     param := p;
     outputs := {| mask_image := None; color_map := None;
                   forwarded := None; graph_image := None |};
     rng := g;
     next_id := 0;
     forward_calls := 0 |}.

(** [m] leaves the observation [f] of the state as it found it. *)
Definition preserves {X A : Type} (f : World -> X) (m : M A) : Prop :=
  forall w, f (snd (m w)) = f w.

(** [m] either completes and leaves the update flag cleared, or raises and
    leaves the flag as it found it. *)
Definition clears_on_success (m : M unit) : Prop :=
  forall w,
    (fst (m w) = inr tt /\ update (param (snd (m w))) = false) \/
    (exists e, fst (m w) = inl e /\ update (param (snd (m w))) = update (param w)).

End Process.

(** A network is consistent with a configuration when, on a batch of one
    three-channel image of the configured size, its forward pass returns
    logits of shape (1, n_classes, img_size, img_size). *)
Definition consistent `{Host} (m : Model) (size n : nat) : Prop :=
  forall x, shape x = [1; 3; size; size] ->
            exists pred, forward m x = inr pred /\ shape pred = [1; n; size; size].

(** ** The colour map as the specification words it

    Entry 0 is black; entry [k >= 1] holds the three consecutive draws
    numbered [3 (k - 1)], [3 (k - 1) + 1], [3 (k - 1) + 2] of the generator
    seeded with 10, followed by the alpha value 255. *)

Section SeededColors.

Context `{Host}.

(** The generator after [j] calls of [randint(0, 255)] following [seed(10)]. *)
Fixpoint state_after (j : nat) : rng_state :=
  match j with
  | O => random_seed 10
  | S j' => snd (random_randint 0 255 (state_after j'))
  end.

Definition draw (j : nat) : Z := fst (random_randint 0 255 (state_after j)).

Definition seeded_entry (k : nat) : list Z :=
  [draw (3 * (k - 1)); draw (3 * (k - 1) + 1); draw (3 * (k - 1) + 2); 255%Z].

Definition seeded_color_map (n : nat) : list (list Z) :=
  [0; 0; 0]%Z :: map seeded_entry (seq 1 (n - 1)).

End SeededColors.

(** ** Geometry of the legend rectangles *)

Definition rect : Type := (Z * Z * (Z * Z) * list Z)%type.

Definition rect_top (r : rect) : Z := snd (fst (fst r)).
Definition rect_bottom (r : rect) : Z := snd (snd (fst r)).

(** Rectangles are stacked top to bottom when each one has its first corner
    above its second and the next one starts below it. *)
Fixpoint stacked (rs : list rect) : bool :=
  match rs with
  | [] => true
  | r :: rs' =>
      (rect_top r <=? rect_bottom r)%Z
      && match rs' with
         | [] => true
         | r' :: _ => (rect_bottom r <? rect_top r')%Z
         end
      && stacked rs'
  end.

(** The rectangle drawn for class [i] when the row pitch is [rh]. *)
Definition legend_rect (rh : Z) (cs : list (list Z)) (i : nat) : rect :=
  ((10, Z.of_nat i * rh + 10)%Z, (343, (Z.of_nat i + 1) * rh)%Z, nth i cs []).

(** ** Concrete collaborators used to run the model on examples *)

Definition cfg_a : ConfigDict :=
  {| img_size := Some 4; n_classes := Some 3;
     class_names := Some (Some ["bg"; "cat"; "dog"]%string);
     pretrained_path := Some (Some "vit.npz"%string) |}.

Definition cfg_b : ConfigDict :=
  {| img_size := Some 8; n_classes := Some 2;
     class_names := Some (Some ["bg"; "fg"]%string);
     pretrained_path := Some None |}.

Definition example_yaml (path : string) : result ConfigDict :=
  if String.eqb path "a.yaml" then inr cfg_a
  else if String.eqb path "b.yaml" then inr cfg_b
  else inl FileNotFoundError.

(** A network whose logit for class [k] is [k] at every pixel. *)
Definition example_forward (m : Model) (x : tensor R) : result (tensor R) :=
  inr {| shape := [1; net_num_classes m; net_img_size m; net_img_size m];
         elem := fun idx => INR (nth 1 idx 0) |}.

(** A stand-in for bicubic interpolation: the nearest source pixel. *)
Definition example_interp (t : tensor R) (oh ow : nat) (idx : list nat) : R :=
  elem t [nth 0 idx 0; nth 1 idx 0;
          nearest_index (nth 2 (shape t) 0) oh (nth 2 idx 0);
          nearest_index (nth 3 (shape t) 0) ow (nth 3 idx 0)].

(** A small linear congruential generator standing in for [random]. *)
Definition example_randint (a b g : Z) : Z * Z :=
  let g' := ((g * 75 + 74) mod 65537)%Z in
  ((a + g' mod (b - a + 1))%Z, g').

(** No weight file is present. *)
Definition example_host : Host :=
  {| rng_state := Z;
     random_seed := fun a => a;
     random_randint := example_randint;
     yaml_load := example_yaml;
     ViT_seg := fun _ _ _ => None;
     cuda_is_available := false;
     isfile := fun _ => false;
     load_state_dict := fun _ _ => None;
     forward := example_forward;
     softmax_kernel := softmax;
     bicubic := example_interp |}.

(** A weight file is present and does not fit the network. *)
Definition mismatch_host : Host :=
  {| rng_state := Z;
     random_seed := fun a => a;
     random_randint := example_randint;
     yaml_load := example_yaml;
     ViT_seg := fun _ _ _ => None;
     cuda_is_available := false;
     isfile := fun _ => true;
     load_state_dict := fun _ _ => Some RuntimeError;
     forward := example_forward;
     softmax_kernel := softmax;
     bicubic := example_interp |}.

(** The constructor itself raises. *)
Definition broken_ctor_host : Host :=
  {| rng_state := Z;
     random_seed := fun a => a;
     random_randint := example_randint;
     yaml_load := example_yaml;
     ViT_seg := fun _ _ _ => Some RuntimeError;
     cuda_is_available := false;
     isfile := fun _ => false;
     load_state_dict := fun _ _ => None;
     forward := example_forward;
     softmax_kernel := softmax;
     bicubic := example_interp |}.

(** An image of the given shape with the same value at every position. *)
Definition const_image (s : list nat) (v : Z) : tensor Z :=
  {| shape := s; elem := fun _ => v |}.

Definition params (config weights : string) (upd : bool) : Param :=
  {| configFile := config; modelFile := weights; update := upd |}.

(** The network [run] builds from [cfg_a] as its first object. *)
Definition model_a : Model :=
  {| mid := 0; built_from := cfg_a; net_img_size := 4; net_num_classes := 3;
     on_device := CPU; weights := RandomInit; training := false |}.

(** A process created on the example collaborators, and the same process
    after a first run without input image. *)
Definition fresh (h : Host) (p : Param) : @World h := @init_world h p (@random_seed h 0%Z).

Definition warm : @World example_host :=
  snd (@run example_host None (fresh example_host (params "a.yaml" "" false))).

(** Attributes of a process with two classes, and with 1001 classes. *)
Definition two_classes : Self :=
  {| model := None; cfg := None;
     colors := Some [[0; 0; 0]; [10; 20; 30; 255]]%Z;
     classes := Some ["bg"; "cat"]%string |}.

Definition crowded : Self :=
  {| model := None; cfg := None;
     colors := Some (repeat [0; 0; 0]%Z 1001);
     classes := Some (repeat "c"%string 1001) |}.

(** ** The parameter container (class [TransUNetParam])

    A [ParamMap] is the host's string-to-string dictionary; indexing it with
    a key it does not hold raises [KeyError]. *)

Definition ParamMap : Type := string -> option string.

Definition empty_map : ParamMap := fun _ => None.

(** [paramMap[k] = v]. *)
Definition map_set (k v : string) (m : ParamMap) : ParamMap :=
  fun k' => if String.eqb k' k then Some v else m k'.

Inductive key_error : Type := KeyError (key : string).

(** [paramMap[k]]. *)
Definition map_get (m : ParamMap) (k : string) : key_error + string :=
  match m k with
  | Some v => inr v
  | None => inl (KeyError k)
  end.

(** [TransUNetParam.__init__]: both file names empty.  The class does not
    create the [update] attribute; the value given here stands for the one
    the host stores, and is read by no guard of [run] as long as no
    configuration is cached. *)
Definition TransUNetParam_init : Param :=
  {| configFile := ""; modelFile := ""; update := false |}.

(** [setParamMap]: the two assignments in order, on the object itself; an
    exception keeps the assignment made before it. *)
Definition setParamMap (paramMap : ParamMap) (p : Param) : (key_error + unit) * Param :=
  match map_get paramMap "configFile" with
  | inl e => (inl e, p)
  | inr c =>
      let p1 := {| configFile := c; modelFile := modelFile p; update := update p |} in
      match map_get paramMap "modelFile" with
      | inl e => (inl e, p1)
      | inr m => (inr tt, {| configFile := configFile p1; modelFile := m;
                             update := update p1 |})
      end
  end.

(** [getParamMap]: a new map holding the two file names. *)
Definition getParamMap (p : Param) : ParamMap :=
  map_set "modelFile" (modelFile p) (map_set "configFile" (configFile p) empty_map).

(** ** Creation of the process and the states it can reach *)

Section Lifecycle.

Context `{Host}.

(** [TransUNetProcess.__init__], also what the factory's [create] returns:
    nothing cached, and the given parameters or default ones. *)
Definition TransUNetProcess_init (param : option Param) (g : rng_state) : World :=
  init_world (match param with
              | None => TransUNetParam_init
              | Some p => p
              end) g.

(** The states of a process: created with a parameter object on which the
    host has put the [update] attribute, raised or not; then any sequence of
    runs, between which the host may store other parameter values. *)
Inductive reachable : World -> Prop :=
| reach_init (p : Param) (g : rng_state) :
    reachable (TransUNetProcess_init (Some p) g)
| reach_run (img : option (tensor Z)) (w : World) :
    reachable w -> reachable (snd (run img w))
| reach_host (p : Param) (w : World) :
    reachable w -> reachable (set_params p w).

(** The cached network was built from the cached configuration. *)
Definition coherent (w : World) : Prop :=
  forall m, model (self w) = Some m -> cfg (self w) = Some (built_from m).

(** A cached network comes with a configuration and was numbered before the
    next object; a cached colour map starts with black and comes with a
    network. *)
Definition cache_invariant (w : World) : Prop :=
  (forall m, model (self w) = Some m ->
             cfg (self w) <> None /\ mid m < next_id w) /\
  (forall cs, colors (self w) = Some cs ->
              (exists rest, cs = [0; 0; 0]%Z :: rest) /\ model (self w) <> None).

End Lifecycle.

(** The texts among drawing calls, with their anchor points, in drawing
    order. *)
Definition texts_of (l : list draw_op) : list (string * (Z * Z)) :=
  flat_map (fun o => match o with
                     | Rectangle _ _ _ _ => []
                     | PutText t org _ _ _ => [(t, org)]
                     end) l.

(** The two drawing calls of the legend row of class [i]. *)
Definition legend_row (rh : Z) (cs : list (list Z)) (names : list string) (i : nat)
  : list draw_op :=
  [Rectangle (10, Z.of_nat i * rh + 10)%Z (343, (Z.of_nat i + 1) * rh)%Z
             (nth i cs []) (-1)%Z;
   PutText (nth i names ""%string)
           (363, (Z.of_nat i + 1) * rh - rh / 3)%Z 1%Z [0; 0; 0]%Z 2%Z].

(** A configuration whose list of class names is empty, and collaborators
    that load it from "empty.yaml". *)
Definition cfg_nameless : ConfigDict :=
  {| img_size := Some 4; n_classes := Some 1;
     class_names := Some (Some []);
     pretrained_path := Some None |}.

Definition nameless_host : Host :=
  {| rng_state := Z;
     random_seed := fun a => a;
     random_randint := example_randint;
     yaml_load := fun path => if String.eqb path "empty.yaml" then inr cfg_nameless
                              else inl FileNotFoundError;
     ViT_seg := fun _ _ _ => None;
     cuda_is_available := false;
     isfile := fun _ => false;
     load_state_dict := fun _ _ => None;
     forward := example_forward;
     softmax_kernel := softmax;
     bicubic := example_interp |}.

(** ** What a softmax kernel keeps of the order of its logits *)

(** [a] is the index of the first greatest element of [l]. *)
Definition first_max (l : list R) (a : nat) : Prop :=
  a < length l /\
  (forall j, j < length l -> (nth j l 0 <= nth a l 0)%R) /\
  (forall j, j < a -> (nth j l 0 < nth a l 0)%R).

(** On the logits [l] the kernel [k] never inverts an order: a logit that is
    not greater does not get a greater probability. *)
Definition order_preserving (k : list R -> list R) (l : list R) : Prop :=
  forall i j, i < length l -> j < length l ->
    (nth i l 0 <= nth j l 0)%R -> (nth i (k l) 0 <= nth j (k l) 0)%R.

(** On the logits [l] the kernel [k] keeps different logits apart: a smaller
    logit gets a smaller probability. *)
Definition separating (k : list R -> list R) (l : list R) : Prop :=
  forall i j, i < length l -> j < length l ->
    (nth i l 0 < nth j l 0)%R -> (nth i (k l) 0 < nth j (k l) 0)%R.

(** A kernel that rounds: the exact quotients, each rounded to the nearest
    multiple of [2^-25], the spacing of the binary32 numbers from 1/4 to
    1/2. *)
Definition round_to_grid (x : R) : R :=
  (IZR (Int_part (x * 33554432 + / 2)) / 33554432)%R.

Definition rounding_softmax (l : list R) : list R := map round_to_grid (softmax l).

Definition rounding_host : Host :=
  {| rng_state := Z;
     random_seed := fun a => a;
     random_randint := example_randint;
     yaml_load := example_yaml;
     ViT_seg := fun _ _ _ => None;
     cuda_is_available := false;
     isfile := fun _ => false;
     load_state_dict := fun _ _ => None;
     forward := example_forward;
     softmax_kernel := rounding_softmax;
     bicubic := example_interp |}.

(** Logits of one pixel and two classes, the second greater by [2^-27], a
    binary32 number. *)
Definition close_logits : tensor R :=
  {| shape := [1; 2; 1; 1];
     elem := fun idx => nth (nth 1 idx 0) [0; / 134217728]%R 0%R |}.

(** Logits of one pixel and two classes, the second greater by one. *)
Definition apart_logits : tensor R :=
  {| shape := [1; 2; 1; 1];
     elem := fun idx => nth (nth 1 idx 0) [0; 1]%R 0%R |}.

(** * Properties *)

(** ** Arg-max and softmax *)

Section ArgmaxFacts.

Variables (A B : Type) (gtA : A -> A -> bool) (gtB : B -> B -> bool) (f : A -> B).
Hypothesis f_mono : forall x y, gtB (f x) (f y) = gtA x y.

Lemma argmax_from_map (l : list A) :
  forall best besti i,
    argmax_from gtB (f best) besti i (map f l) = argmax_from gtA best besti i l.
Proof.
  induction l as [|x l IH]; intros best besti i; simpl.
  - reflexivity.
  - rewrite f_mono. destruct (gtA x best); apply IH.
Qed.

Lemma argmax_map (l : list A) : argmax gtB (map f l) = argmax gtA l.
Proof.
  destruct l as [|x l]; simpl; [reflexivity | apply argmax_from_map].
Qed.

End ArgmaxFacts.

Lemma argmax_from_bound (A : Type) (gtb : A -> A -> bool) (l : list A) :
  forall best besti i,
    besti < i -> argmax_from gtb best besti i l < i + length l.
Proof.
  induction l as [|x l IH]; intros best besti i Hi; simpl.
  - lia.
  - destruct (gtb x best).
    + specialize (IH x i (S i)). lia.
    + specialize (IH best besti (S i)). lia.
Qed.

Lemma argmax_bound (A : Type) (gtb : A -> A -> bool) (l : list A) :
  l <> [] -> argmax gtb l < length l.
Proof.
  destruct l as [|x l]; intros Hl; [congruence|].
  simpl. pose proof (argmax_from_bound gtb l x (besti := 0) (i := 1)). lia.
Qed.

Lemma map_nth_seq (A : Type) (d : A) (l : list A) :
  map (fun k => nth k l d) (seq 0 (length l)) = l.
Proof.
  induction l as [|x l IH]; simpl; [reflexivity|].
  f_equal. rewrite <- seq_shift, map_map. exact IH.
Qed.

Lemma Rsum_exp_pos (l : list R) : l <> [] -> (0 < Rsum (map exp l))%R.
Proof.
  induction l as [|x l IH]; intros Hl; [congruence|].
  simpl. destruct l as [|y l].
  - simpl. pose proof (exp_pos x). lra.
  - pose proof (exp_pos x). assert (0 < Rsum (map exp (y :: l)))%R by (apply IH; discriminate).
    lra.
Qed.

Lemma Rgtb_scaled_exp (z x y : R) :
  (0 < z)%R -> Rgtb (exp x / z) (exp y / z) = Rgtb x y.
Proof.
  intros Hz. unfold Rgtb.
  destruct (Rlt_dec (exp y / z) (exp x / z)) as [H1|H1];
    destruct (Rlt_dec y x) as [H2|H2]; try reflexivity; exfalso.
  - apply H2. apply exp_lt_inv.
    unfold Rdiv in H1. apply Rmult_lt_reg_r in H1; [exact H1|].
    apply Rinv_0_lt_compat; exact Hz.
  - apply H1. unfold Rdiv. apply Rmult_lt_compat_r.
    + apply Rinv_0_lt_compat; exact Hz.
    + apply exp_increasing; exact H2.
Qed.

Lemma softmax_length (l : list R) : length (softmax l) = length l.
Proof. unfold softmax. apply length_map. Qed.

Lemma argmax_softmax (l : list R) : argmax Rgtb (softmax l) = argmax Rgtb l.
Proof.
  destruct l as [|x l]; [reflexivity|].
  unfold softmax. apply argmax_map.
  intros a b. apply Rgtb_scaled_exp. apply Rsum_exp_pos. discriminate.
Qed.

Lemma lane_length (A : Type) (t : tensor A) b rest :
  length (lane t b rest) = nth 1 (shape t) 0.
Proof. unfold lane. rewrite length_map, length_seq. reflexivity. Qed.

Lemma lane_softmax `{Host} (t sm : tensor R) b rest :
  softmax_dim1 t = inr sm ->
  lane sm b rest =
  map (fun k => nth k (softmax_kernel (lane t b rest)) 0%R)
      (seq 0 (length (lane t b rest))).
Proof.
  unfold softmax_dim1. destruct (shape t) as [|n [|c s]] eqn:Hs; try discriminate.
  intros Hsm. injection Hsm as <-. unfold lane at 1. simpl.
  rewrite lane_length, Hs. reflexivity.
Qed.

(** The arg-max is the index of the first greatest element. *)
Lemma argmax_from_first_max (l : list R) :
  forall pre best besti,
    first_max pre besti -> best = nth besti pre 0%R ->
    first_max (pre ++ l) (argmax_from Rgtb best besti (length pre) l).
Proof.
  induction l as [|x l IH]; intros pre best besti Hfm Hbest.
  - simpl. rewrite app_nil_r. exact Hfm.
  - simpl.
    replace (pre ++ x :: l) with ((pre ++ [x]) ++ l)
      by (rewrite <- app_assoc; reflexivity).
    replace (S (length pre)) with (length (pre ++ [x]))
      by (rewrite length_app; simpl; lia).
    destruct Hfm as (Hlt & Hmax & Hfirst).
    assert (Hlast : nth (length pre) (pre ++ [x]) 0%R = x).
    { rewrite app_nth2, Nat.sub_diag by lia. reflexivity. }
    assert (Hold : forall j, j < length pre ->
                     nth j (pre ++ [x]) 0%R = nth j pre 0%R).
    { intros j Hj. apply app_nth1. exact Hj. }
    unfold Rgtb. destruct (Rlt_dec best x) as [Hgt|Hle].
    + apply IH; [|symmetry; exact Hlast].
      repeat split.
      * rewrite length_app. simpl. lia.
      * intros j Hj. rewrite length_app in Hj. simpl in Hj. rewrite Hlast.
        destruct (Nat.eq_dec j (length pre)) as [->|Hne].
        -- rewrite Hlast. lra.
        -- rewrite Hold by lia. specialize (Hmax j). rewrite <- Hbest in Hmax.
           assert (nth j pre 0 <= best)%R by (apply Hmax; lia). lra.
      * intros j Hj. rewrite Hlast, Hold by lia.
        specialize (Hmax j). rewrite <- Hbest in Hmax.
        assert (nth j pre 0 <= best)%R by (apply Hmax; lia). lra.
    + apply IH; [|rewrite Hold by lia; exact Hbest].
      repeat split.
      * rewrite length_app. simpl. lia.
      * intros j Hj. rewrite length_app in Hj. simpl in Hj.
        rewrite (Hold besti) by lia.
        destruct (Nat.eq_dec j (length pre)) as [->|Hne].
        -- rewrite Hlast, <- Hbest. lra.
        -- rewrite Hold by lia. apply Hmax. lia.
      * intros j Hj. rewrite (Hold besti), Hold by lia. apply Hfirst. exact Hj.
Qed.

Lemma argmax_first_max (l : list R) : l <> [] -> first_max l (argmax Rgtb l).
Proof.
  destruct l as [|x l]; intros Hl; [congruence|].
  simpl. apply (@argmax_from_first_max l [x] x 0); [|reflexivity].
  repeat split.
  - simpl. lia.
  - intros j Hj. simpl in Hj. replace j with 0 by lia. simpl. lra.
  - intros j Hj. lia.
Qed.

(** Arg-max of the values [p] computed from the values [l]: where the order
    is never inverted, the result is an index not after that of [l] and
    holding the same value; where different values also stay apart, it is
    that of [l]. *)
Lemma argmax_of_image (l p : list R) :
  l <> [] -> length p = length l ->
  (forall i j, i < length l -> j < length l ->
     (nth i l 0 <= nth j l 0)%R -> (nth i p 0 <= nth j p 0)%R) ->
  (argmax Rgtb p <= argmax Rgtb l /\
   nth (argmax Rgtb p) p 0%R = nth (argmax Rgtb l) p 0%R) /\
  ((forall i j, i < length l -> j < length l ->
      (nth i l 0 < nth j l 0)%R -> (nth i p 0 < nth j p 0)%R) ->
   argmax Rgtb p = argmax Rgtb l).
Proof.
  intros Hl Hlen Hmono.
  assert (Hp : p <> []) by (destruct p; [destruct l; simpl in *; congruence | discriminate]).
  destruct (argmax_first_max Hl) as (Ha & Hamax & Hafirst).
  destruct (argmax_first_max Hp) as (Hb & Hbmax & Hbfirst).
  set (a := argmax Rgtb l) in *. set (b := argmax Rgtb p) in *.
  rewrite Hlen in Hb, Hbmax.
  assert (Hle1 : (nth b p 0 <= nth a p 0)%R)
    by (apply Hmono; [exact Hb | exact Ha | apply Hamax; exact Hb]).
  assert (Hle2 : (nth a p 0 <= nth b p 0)%R) by (apply Hbmax; exact Ha).
  assert (Hba : b <= a).
  { destruct (le_lt_dec b a) as [Hle|Hlt]; [exact Hle|].
    specialize (Hbfirst a Hlt). lra. }
  split; [split; [exact Hba | lra]|].
  intros Hsep.
  destruct (Nat.eq_dec b a) as [Heq|Hne]; [exact Heq|].
  assert (Hlt : b < a) by lia.
  specialize (Hafirst b Hlt). specialize (Hsep b a Hb Ha Hafirst). lra.
Qed.

Lemma nth_map_seq (l : list R) (n i : nat) :
  i < n -> nth i (map (fun k => nth k l 0%R) (seq 0 n)) 0%R = nth i l 0%R.
Proof.
  intros Hi.
  rewrite (nth_indep _ 0%R (nth 0 l 0%R)) by (rewrite length_map, length_seq; exact Hi).
  rewrite (map_nth (fun k => nth k l 0%R)), seq_nth by exact Hi. reflexivity.
Qed.

(** The softmax of exact arithmetic keeps the order of the logits, and keeps
    different logits apart. *)
Lemma nth_softmax (l : list R) (i : nat) :
  i < length l -> nth i (softmax l) 0%R = (exp (nth i l 0) / Rsum (map exp l))%R.
Proof.
  intros Hi. unfold softmax.
  rewrite (nth_indep _ 0%R ((fun x => exp x / Rsum (map exp l)) 0)%R)
    by (rewrite length_map; exact Hi).
  rewrite (map_nth (fun x => exp x / Rsum (map exp l))%R). reflexivity.
Qed.

Lemma softmax_order_preserving (l : list R) : order_preserving softmax l.
Proof.
  intros i j Hi Hj Hle. rewrite !nth_softmax by assumption.
  assert (Hs : (0 < Rsum (map exp l))%R)
    by (apply Rsum_exp_pos; destruct l; [simpl in Hi; lia | discriminate]).
  unfold Rdiv. apply Rmult_le_compat_r.
  - left. apply Rinv_0_lt_compat. exact Hs.
  - destruct Hle as [Hlt|Heq].
    + left. apply exp_increasing. exact Hlt.
    + rewrite Heq. right. reflexivity.
Qed.

Lemma softmax_separating (l : list R) : separating softmax l.
Proof.
  intros i j Hi Hj Hlt. rewrite !nth_softmax by assumption.
  assert (Hs : (0 < Rsum (map exp l))%R)
    by (apply Rsum_exp_pos; destruct l; [simpl in Hi; lia | discriminate]).
  unfold Rdiv. apply Rmult_lt_compat_r.
  - apply Rinv_0_lt_compat. exact Hs.
  - apply exp_increasing. exact Hlt.
Qed.

(** The rounding kernel gives both of two logits [2^-27] apart the
    probability one half. *)
Lemma exp_small_bounds :
  (1 + / 134217728 <= exp (/ 134217728) <= 1 + 2 * / 134217728)%R.
Proof.
  split.
  - apply exp_ineq1_le.
  - pose proof (exp_ineq1_le (- / 134217728)%R) as Hneg.
    pose proof (exp_pos (/ 134217728)) as Hpos.
    assert (Hprod : (exp (/ 134217728) * exp (- / 134217728) = 1)%R).
    { rewrite <- exp_plus. replace (/ 134217728 + - / 134217728)%R with 0%R by lra.
      apply exp_0. }
    assert (Hlow : (1 - / 134217728 <= exp (- / 134217728))%R) by lra.
    assert (Hmul : (exp (/ 134217728) * (1 - / 134217728)
                    <= exp (/ 134217728) * exp (- / 134217728))%R).
    { apply Rmult_le_compat_l; [lra | exact Hlow]. }
    lra.
Qed.

Lemma round_to_grid_half (x : R) :
  (0.49999999 <= x <= 0.50000001)%R -> round_to_grid x = (1 / 2)%R.
Proof.
  intros Hx. unfold round_to_grid.
  replace (Int_part (x * 33554432 + / 2)) with 16777216%Z; [lra|].
  apply Int_part_spec. lra.
Qed.

Lemma rounding_softmax_close :
  rounding_softmax [0; / 134217728]%R = [1 / 2; 1 / 2]%R.
Proof.
  pose proof exp_small_bounds as Ht.
  unfold rounding_softmax, softmax. cbn [map Rsum fold_right].
  rewrite exp_0. set (t := exp (/ 134217728)) in *.
  assert (Hinv : (/ (2 + 2 * / 134217728) <= / (1 + (t + 0)) <= / 2)%R).
  { split; apply Rinv_le_contravar; lra. }
  assert (Hone : ((1 + (t + 0)) * / (1 + (t + 0)) = 1)%R) by (apply Rinv_r; lra).
  assert (Hlo : (0.499999994 <= / (2 + 2 * / 134217728))%R).
  { apply (Rmult_le_reg_r (2 + 2 * / 134217728)); [lra|].
    rewrite Rinv_l by lra. lra. }
  f_equal; [|f_equal]; apply round_to_grid_half; unfold Rdiv; nra.
Qed.

(** C6.  Softmax before the arg-max can change the decoded class only among
    classes to which the kernel gives the same probability, and then towards
    the earlier class: on every lane of logits whose order the kernel does
    not invert, the decoded index is not after the arg-max of the logits and
    has the probability of that arg-max; on every lane where the kernel also
    keeps different logits apart, the two indices are the same. *)
Theorem softmax_moves_argmax_only_among_ties `{Host}
        (pred : tensor R) (n c : nat) (rest0 : list nat) :
  shape pred = n :: c :: rest0 -> c <> 0 ->
  exists am raw,
    rbind (softmax_dim1 pred) (argmax_dim1 Rgtb) = inr am /\
    argmax_dim1 Rgtb pred = inr raw /\
    shape am = shape raw /\
    forall idx,
      let l := lane pred (hd 0 idx) (tl (tl idx)) in
      (order_preserving softmax_kernel l ->
       elem am idx <= elem raw idx /\
       nth (elem am idx) (softmax_kernel l) 0%R =
       nth (elem raw idx) (softmax_kernel l) 0%R) /\
      (order_preserving softmax_kernel l -> separating softmax_kernel l ->
       elem am idx = elem raw idx).
Proof.
  intros Hs Hc.
  destruct (softmax_dim1 pred) as [e|sm] eqn:Hsm.
  { unfold softmax_dim1 in Hsm. rewrite Hs in Hsm. discriminate. }
  assert (Hshape : shape sm = shape pred).
  { unfold softmax_dim1 in Hsm. rewrite Hs in Hsm. injection Hsm as <-.
    simpl. symmetry. exact Hs. }
  cbn [rbind]. unfold argmax_dim1. rewrite Hshape, Hs.
  destruct (Nat.eqb c 0) eqn:Hc0; [apply Nat.eqb_eq in Hc0; contradiction|].
  eexists (Tensor.mk _ _), (Tensor.mk _ _).
  split; [reflexivity|]. split; [reflexivity|]. split; [reflexivity|].
  intros idx. cbn zeta. cbn [elem].
  rewrite (@lane_softmax _ pred sm _ _ Hsm).
  set (l := lane pred (hd 0 idx) (tl (tl idx))).
  assert (Hlen : length l = c).
  { unfold l. rewrite lane_length, Hs. reflexivity. }
  assert (Hl : l <> []) by (destruct l; [simpl in Hlen; congruence | discriminate]).
  set (p := map (fun k => nth k (softmax_kernel l) 0%R) (seq 0 (length l))).
  assert (Hplen : length p = length l)
    by (unfold p; rewrite length_map, length_seq; reflexivity).
  assert (Hp : forall i, i < length l -> nth i p 0%R = nth i (softmax_kernel l) 0%R)
    by (intros i Hi; apply nth_map_seq; exact Hi).
  assert (Ha : argmax Rgtb l < length l) by (apply argmax_bound; exact Hl).
  assert (Hb : argmax Rgtb p < length l).
  { rewrite <- Hplen. apply argmax_bound.
    destruct p; [destruct l; simpl in *; congruence | discriminate]. }
  split.
  - intros Hmono.
    destruct (@argmax_of_image l p Hl Hplen) as [[Hle Heq] _].
    { intros i j Hi Hj Hij. rewrite !Hp by assumption. apply Hmono; assumption. }
    split; [exact Hle|]. rewrite <- !Hp by assumption. exact Heq.
  - intros Hmono Hsep.
    destruct (@argmax_of_image l p Hl Hplen) as [_ Heq].
    { intros i j Hi Hj Hij. rewrite !Hp by assumption. apply Hmono; assumption. }
    apply Heq. intros i j Hi Hj Hij. rewrite !Hp by assumption.
    apply Hsep; assumption.
Qed.

Lemma softmax_moves_argmax_only_among_ties_witness :
  exists am raw,
    rbind (@softmax_dim1 example_host apart_logits) (argmax_dim1 Rgtb) = inr am /\
    argmax_dim1 Rgtb apart_logits = inr raw /\
    shape am = shape raw /\
    forall idx,
      let l := lane apart_logits (hd 0 idx) (tl (tl idx)) in
      (order_preserving (@softmax_kernel example_host) l ->
       elem am idx <= elem raw idx /\
       nth (elem am idx) (@softmax_kernel example_host l) 0%R =
       nth (elem raw idx) (@softmax_kernel example_host l) 0%R) /\
      (order_preserving (@softmax_kernel example_host) l ->
       separating (@softmax_kernel example_host) l ->
       elem am idx = elem raw idx).
Proof.
  apply (@softmax_moves_argmax_only_among_ties example_host apart_logits 1 2 [1; 1]).
  - reflexivity.
  - discriminate.
Defined.

(** C6, as the specification words it, fails for a kernel that rounds: on
    two logits [2^-27] apart the raw arg-max is class 1, and both rounded
    probabilities are one half, so that the decoded class is 0. *)
Lemma rounded_softmax_changes_the_argmax :
  exists am raw,
    rbind (@softmax_dim1 rounding_host close_logits) (argmax_dim1 Rgtb) = inr am /\
    argmax_dim1 Rgtb close_logits = inr raw /\
    elem am [0; 0; 0; 0] = 0 /\ elem raw [0; 0; 0; 0] = 1.
Proof.
  eexists (Tensor.mk _ _), (Tensor.mk _ _).
  split; [reflexivity|]. split; [reflexivity|].
  cbn [elem hd tl]. unfold lane. cbn [shape nth seq map elem close_logits].
  change (@softmax_kernel rounding_host) with rounding_softmax.
  rewrite rounding_softmax_close. cbn [nth argmax argmax_from].
  unfold Rgtb.
  destruct (Rlt_dec (1 / 2) (1 / 2)) as [H1|_]; [lra|].
  destruct (Rlt_dec 0 (/ 134217728)) as [_|H2]; [|lra].
  split; reflexivity.
Qed.

(** With a kernel of exact arithmetic the decoded class is the arg-max of the
    logits. *)
Lemma exact_softmax_keeps_argmax `{Host} (pred : tensor R) :
  softmax_kernel = softmax ->
  rbind (softmax_dim1 pred) (argmax_dim1 Rgtb) = argmax_dim1 Rgtb pred.
Proof.
  intros Hk.
  destruct (softmax_dim1 pred) as [e|sm'] eqn:Hsm.
  - unfold softmax_dim1 in Hsm. unfold argmax_dim1. simpl.
    destruct (shape pred) as [|n [|c s]]; try discriminate;
      injection Hsm as <-; reflexivity.
  - simpl. unfold argmax_dim1.
    assert (Hshape : shape sm' = shape pred).
    { unfold softmax_dim1 in Hsm.
      destruct (shape pred) as [|n [|c s]]; try discriminate.
      injection Hsm as <-. reflexivity. }
    rewrite Hshape. destruct (shape pred) as [|n [|c s]]; try reflexivity.
    destruct (Nat.eqb c 0); [reflexivity|].
    do 2 f_equal. apply functional_extensionality. intros idx.
    rewrite (@lane_softmax _ pred sm' _ _ Hsm), Hk.
    rewrite <- (softmax_length (lane pred (hd 0 idx) (tl (tl idx)))).
    rewrite map_nth_seq. apply argmax_softmax.
Qed.

(** ** Normalisation *)

(** On a batch of one image the loop of [Normalize] runs once, pairing the
    whole image with the first mean and the first standard deviation. *)
Lemma Normalize_call_batch_of_one (A : Type) (sub div : A -> A -> A)
      (m0 s0 : A) (ms ss : list A) (x : tensor A) :
  hd 0 (shape x) = 1 ->
  Normalize_call sub div (m0 :: ms) (s0 :: ss) x = sub_div_slice sub div 0 m0 s0 x.
Proof.
  intros Hx. unfold Normalize_call. rewrite Hx. reflexivity.
Qed.

(** Every channel of the resized image is shifted and scaled by the
    statistics of channel 0. *)
Lemma preprocess_normalizes_with_channel0_statistics `{Host}
      (c : ConfigDict) (p : string) (img : tensor Z) (h w : nat) (x : tensor R) :
  pretrained_path c = Some (Some p) ->
  preprocess (Some c) img = inr (h, w, x) ->
  exists resized,
    shape resized = [1; nth 2 (shape img) 0;
                     match img_size c with Some s => s | None => 0 end;
                     match img_size c with Some s => s | None => 0 end] /\
    forall k i j,
      elem x [0; k; i; j] =
      Rdiv (Rminus (elem resized [0; k; i; j]) 123.675%R) 58.395%R.
Proof.
  intros Hp. unfold preprocess.
  destruct (shape img) as [|h0 [|w0 [|c0 [|]]]] eqn:Hs; try discriminate.
  simpl cfg_attr. destruct (img_size c) as [size|]; [|discriminate]. simpl rbind.
  unfold Resize_bicubic at 1. simpl shape. rewrite Hs. simpl map.
  destruct (empty_size _ _ _ _ _); [discriminate|]. simpl rbind.
  rewrite Hp. simpl. intros Heq. injection Heq as <- <- <-.
  eexists (Tensor.mk _ _). split; [reflexivity|]. intros k i j. reflexivity.
Qed.

(** C1.  On a 2 x 2 image whose pixels are all (0, 0, 0), with the
    pretrained path set, the normalised green and blue channels hold
    [(0 - 123.675) / 58.395], the value computed from the statistics of the
    red channel, and not [(0 - 116.280) / 57.120] and
    [(0 - 103.530) / 57.375]. *)
Theorem normalize_applies_red_statistics_to_all_channels :
  exists h w x,
    preprocess (H := example_host) (Some cfg_a) (const_image [2; 2; 3] 0) = inr (h, w, x) /\
    elem x [0; 1; 0; 0] = ((0 - 123.675) / 58.395)%R /\
    elem x [0; 1; 0; 0] <> ((0 - 116.280) / 57.120)%R /\
    elem x [0; 2; 0; 0] = ((0 - 123.675) / 58.395)%R /\
    elem x [0; 2; 0; 0] <> ((0 - 103.530) / 57.375)%R.
Proof.
  eexists _, _, _. split; [reflexivity|]. simpl.
  repeat split; try reflexivity; lra.
Qed.

(** The same evaluation on exact rationals, for [Normalize] alone on a
    tensor of shape (1, 3, 1, 1). *)
Example Normalize_call_on_rationals :
  let x := {| shape := [1; 3; 1; 1]; elem := fun _ => 0%Q |} in
  let y := Normalize_call Qminus Qdiv mean_Q std_Q x in
  Qeq_bool (elem y [0; 1; 0; 0]) ((0 - 123.675) / 58.395) = true /\
  Qeq_bool (elem y [0; 1; 0; 0]) ((0 - 116.280) / 57.120) = false.
Proof. split; vm_compute; reflexivity. Qed.

(** ** Decoding the logits *)

Lemma squeeze_shape_batch (h w : nat) :
  squeeze_shape [1; 1; h; w] = squeeze_shape [h; w].
Proof. reflexivity. Qed.

Lemma squeeze_shape_proper (h w : nat) :
  2 <= h -> 2 <= w -> squeeze_shape [h; w] = [h; w].
Proof.
  intros Hh Hw. unfold squeeze_shape. simpl.
  destruct (Nat.eqb_spec h 1); [lia|]. destruct (Nat.eqb_spec w 1); [lia|].
  reflexivity.
Qed.

Lemma empty_size_false (c h w oh ow : nat) :
  1 <= c -> 1 <= h -> 1 <= w -> 1 <= oh -> 1 <= ow ->
  empty_size c h w oh ow = false.
Proof.
  intros. unfold empty_size.
  destruct (Nat.eqb_spec c 0); [lia|].
  destruct (Nat.eqb_spec h 0); [lia|]. destruct (Nat.eqb_spec w 0); [lia|].
  destruct (Nat.eqb_spec oh 0); [lia|]. destruct (Nat.eqb_spec ow 0); [lia|].
  reflexivity.
Qed.

(** Logits of shape (n, c, sh, sw) decode to labels below [c], on a grid
    whose shape is (n, 1, h, w) with the axes of length one removed. *)
Lemma decode_total `{Host} (h w : nat) (pred : tensor R) (n c sh sw : nat) :
  shape pred = [n; c; sh; sw] ->
  1 <= c -> 1 <= sh -> 1 <= sw -> 1 <= h -> 1 <= w ->
  exists lbl,
    decode h w pred = inr lbl /\
    shape lbl = squeeze_shape [n; 1; h; w] /\
    forall idx, elem lbl idx < c.
Proof.
  intros Hs Hc Hsh Hsw Hh Hw.
  unfold decode.
  destruct (softmax_dim1 pred) as [e|sm] eqn:Hsm.
  { unfold softmax_dim1 in Hsm. rewrite Hs in Hsm. discriminate. }
  assert (Hshape : shape sm = [n; c; sh; sw]).
  { unfold softmax_dim1 in Hsm. rewrite Hs in Hsm. injection Hsm as <-. reflexivity. }
  simpl rbind. unfold argmax_dim1. rewrite Hshape.
  destruct (Nat.eqb_spec c 0) as [Hc0|Hc0]; [lia|].
  simpl rbind. unfold Resize_nearest. cbn [shape fst snd].
  rewrite (@empty_size_false 1 sh sw h w (le_n 1) Hsh Hsw Hh Hw).
  simpl rbind. eexists. split; [reflexivity|]. split; [reflexivity|].
  intros idx.
  assert (Ham : forall b rest, argmax Rgtb (lane sm b rest) < c).
  { intros b rest.
    pose proof (@argmax_bound R Rgtb (lane sm b rest)) as Hb.
    rewrite lane_length, Hshape in Hb. simpl in Hb. apply Hb.
    intros Hnil. apply (f_equal (@length R)) in Hnil.
    rewrite lane_length, Hshape in Hnil. simpl in Hnil. lia. }
  unfold squeeze. cbn [elem shape].
  generalize (unsqueeze_index [n; 1; h; w] idx).
  intros [|b [|k [|i [|j [|]]]]]; apply Ham.
Qed.

(** ** The pipeline as a whole *)

Lemma fold_sub_div_shape (A : Type) (sub div : A -> A -> A)
      (l : list (nat * (A * A))) :
  forall img,
    shape (fold_left (fun img bms =>
                        sub_div_slice sub div (fst bms) (fst (snd bms)) (snd (snd bms)) img)
                     l img) = shape img.
Proof.
  induction l as [|x l IH]; intros img; simpl; [reflexivity|].
  rewrite IH. reflexivity.
Qed.

Lemma Normalize_call_shape (A : Type) (sub div : A -> A -> A)
      (mean std : list A) (x : tensor A) :
  shape (Normalize_call sub div mean std x) = shape x.
Proof. unfold Normalize_call. apply fold_sub_div_shape. Qed.

Section PipelineFacts.

Context `{Host}.

Lemma preprocess_total (c : ConfigDict) (img : tensor Z)
      (h w ch size : nat) (pp : option string) :
  shape img = [h; w; ch] -> 1 <= h -> 1 <= w -> 1 <= ch ->
  img_size c = Some size -> 1 <= size ->
  pretrained_path c = Some pp ->
  exists x, preprocess (Some c) img = inr (h, w, x) /\
            shape x = [1; ch; size; size].
Proof.
  intros Hs Hh Hw Hch Hsize Hpos Hpp. unfold preprocess. rewrite Hs.
  cbn [cfg_attr]. rewrite Hsize, Hpp. cbn [getattr rbind].
  unfold Resize_bicubic. cbn [shape tmap permute stack1 map nth fst snd].
  rewrite Hs. cbn [nth].
  rewrite (empty_size_false Hch Hh Hw Hpos Hpos). cbn [rbind].
  eexists. split; [reflexivity|].
  destruct pp; [apply Normalize_call_shape | reflexivity].
Qed.

Lemma infer_total (m : Model) (c : ConfigDict) (img : tensor Z)
      (h w size n : nat) (pp : option string) :
  shape img = [h; w; 3] -> 1 <= h -> 1 <= w ->
  img_size c = Some size -> 1 <= size ->
  1 <= n ->
  pretrained_path c = Some pp ->
  consistent m size n ->
  exists lbl,
    infer m (Some c) img = inr lbl /\
    shape lbl = squeeze_shape [h; w] /\
    forall idx, elem lbl idx < n.
Proof.
  intros Hs Hh Hw Hsize Hpos Hn Hpp Hm.
  assert (Hch : 1 <= 3) by lia.
  destruct (@preprocess_total c img h w 3 size pp Hs Hh Hw Hch Hsize Hpos Hpp)
    as (x & Hx & Hxs).
  destruct (Hm x Hxs) as (pred & Hf & Hps).
  destruct (@decode_total _ h w pred 1 n size size Hps Hn Hpos Hpos Hh Hw)
    as (lbl & Hd & Hls & Hrange).
  exists lbl. unfold infer. rewrite Hx. cbn [rbind fst snd]. rewrite Hf.
  cbn [rbind]. rewrite Hd. repeat split; assumption.
Qed.


(** For images with at least two rows and two columns the label map has the
    shape of the image. *)
Lemma label_shape_of_proper_image (m : Model) (c : ConfigDict) (img : tensor Z)
      (h w size n : nat) (pp : option string) :
  shape img = [h; w; 3] -> 2 <= h -> 2 <= w ->
  img_size c = Some size -> 1 <= size ->
  1 <= n ->
  pretrained_path c = Some pp ->
  consistent m size n ->
  exists lbl, infer m (Some c) img = inr lbl /\ shape lbl = [h; w].
Proof.
  intros Hs Hh Hw Hsize Hpos Hn Hpp Hm.
  destruct (@infer_total m c img h w size n pp) as (lbl & Hi & Hl & _);
    try assumption; try lia.
  exists lbl. split; [exact Hi|]. rewrite Hl. apply squeeze_shape_proper; assumption.
Qed.

End PipelineFacts.



(** C4.  On an image with one row and five columns the label map has the
    single axis (5), not the shape (1, 5) of the image: [squeeze] also
    removes the image axis of length one. *)
Theorem label_map_of_one_row_image_loses_an_axis :
  exists lbl,
    infer (H := example_host) model_a (Some cfg_a) (const_image [1; 5; 3] 0) = inr lbl /\
    shape lbl = [5].
Proof. eexists. split; reflexivity. Qed.

(** ** Frame rules for the steps of [run] *)

Section FrameRules.

Context `{Host}.

Lemma preserves_bind (X A B : Type) (f : World -> X) (m : M A) (k : A -> M B) :
  preserves f m -> (forall a, preserves f (k a)) -> preserves f (bind m k).
Proof.
  intros Hm Hk w. unfold bind. specialize (Hm w).
  destruct (m w) as [[e|a] w']; simpl in *; [exact Hm|].
  rewrite (Hk a w'). exact Hm.
Qed.

Lemma preserves_when (X : Type) (f : World -> X) (b : bool) (m : M unit) :
  preserves f m -> preserves f (when b m).
Proof. intros Hm. destruct b; [exact Hm | intros w; reflexivity]. Qed.

Lemma preserves_repeatM (X : Type) (f : World -> X) (n : nat) (m : M unit) :
  preserves f m -> preserves f (repeatM n m).
Proof.
  intros Hm. induction n as [|n IH]; simpl.
  - intros w; reflexivity.
  - apply preserves_bind; [exact Hm | intros _; exact IH].
Qed.

End FrameRules.

(** Decomposes a frame goal along the binds and branches of the code. *)
Ltac frame :=
  repeat first
    [ solve [intros ?w; reflexivity]
    | apply preserves_bind; [|intros ?a]
    | apply preserves_when
    | apply preserves_repeatM
    | match goal with
      | |- preserves _ (match ?x with _ => _ end) => destruct x
      end ].

Section RunFacts.

Context `{Host}.

Lemma construct_frame (X : Type) (f : World -> X) c size n :
  (forall w k, f {| self := self w; param := param w; outputs := outputs w;
                    rng := rng w; next_id := k;
                    forward_calls := forward_calls w |} = f w) ->
  preserves f (construct c size n).
Proof.
  intros Hf w. unfold construct. destruct (ViT_seg c size n); simpl; [reflexivity|].
  apply Hf.
Qed.

Lemma load_weights_frame (X : Type) (f : World -> X) path :
  (forall o, preserves f (set_model o)) ->
  preserves f (load_weights path).
Proof.
  intros Hf. unfold load_weights. apply preserves_bind; [intros w; reflexivity|].
  intros s. destruct (model s); [|intros w; reflexivity].
  destruct (load_state_dict m path).
  - apply preserves_bind; [apply Hf | intros _ w; reflexivity].
  - apply Hf.
Qed.

(** The configuration step touches [self.cfg] and [self.classes] only. *)
Lemma load_config_frame :
  preserves (fun w => model (self w)) load_config /\
  preserves (fun w => colors (self w)) load_config /\
  preserves param load_config /\
  preserves outputs load_config /\
  preserves rng load_config /\
  preserves next_id load_config /\
  preserves forward_calls load_config.
Proof. unfold load_config. repeat split; frame. Qed.

(** The network step touches [self.model] and the object counter only. *)
Lemma build_model_frame :
  preserves (fun w => cfg (self w)) build_model /\
  preserves (fun w => classes (self w)) build_model /\
  preserves (fun w => colors (self w)) build_model /\
  preserves param build_model /\
  preserves outputs build_model /\
  preserves rng build_model /\
  preserves forward_calls build_model.
Proof.
  unfold build_model, update_model.
  repeat split; frame;
    first [ apply construct_frame; intros; reflexivity
          | apply load_weights_frame; intros o w; reflexivity ].
Qed.

Lemma build_colors_frame :
  preserves (fun w => model (self w)) build_colors /\
  preserves (fun w => cfg (self w)) build_colors /\
  preserves (fun w => classes (self w)) build_colors /\
  preserves (fun w => update (param w)) build_colors /\
  preserves (fun w => configFile (param w)) build_colors /\
  preserves (fun w => modelFile (param w)) build_colors /\
  preserves next_id build_colors /\
  preserves forward_calls build_colors.
Proof. unfold build_colors, append_color. repeat split; frame. Qed.

Lemma predict_frame m img :
  preserves self (predict m img) /\
  preserves param (predict m img) /\
  preserves rng (predict m img) /\
  preserves next_id (predict m img).
Proof. unfold predict. repeat split; frame. Qed.

Lemma publish_frame img :
  preserves self (publish img) /\
  preserves (fun w => configFile (param w)) (publish img) /\
  preserves (fun w => modelFile (param w)) (publish img) /\
  preserves rng (publish img) /\
  preserves next_id (publish img) /\
  preserves forward_calls (publish img).
Proof. unfold publish. repeat split; frame. Qed.

(** The inference step leaves the cached network and configuration alone. *)
Lemma inference_frame img :
  preserves (fun w => model (self w)) (inference img) /\
  preserves (fun w => cfg (self w)) (inference img) /\
  preserves (fun w => classes (self w)) (inference img) /\
  preserves (fun w => configFile (param w)) (inference img) /\
  preserves (fun w => modelFile (param w)) (inference img) /\
  preserves next_id (inference img).
Proof.
  unfold inference, predict, publish, build_colors, append_color.
  repeat split; frame.
Qed.

End RunFacts.

(** ** What each step of [run] does *)

(** Unfolds the network step down to the calls of the collaborators. *)
Ltac run_build :=
  unfold build_model, bind, get_self, get_param, when, lift, construct,
    update_model, load_weights, set_model, put_self, raise, ret, cfg_attr, getattr;
  cbn [self param model cfg fst snd next_id].

Section RunSteps.

Context `{Host}.

Lemma run_unfold img w :
  run img w =
  match load_config (snd (seed 10 w)) with
  | (inl e, w1) => (inl e, w1)
  | (inr _, w1) =>
      match build_model w1 with
      | (inl e, w2) => (inl e, w2)
      | (inr _, w2) => inference img w2
      end
  end.
Proof. reflexivity. Qed.

Lemma bind_inr (A B : Type) (m : M A) (k : A -> M B) w a w' :
  m w = (inr a, w') -> bind m k w = k a w'.
Proof. intros Hm. unfold bind. rewrite Hm. reflexivity. Qed.

(** A file whose [class_names] is null is read without an error and leaves
    the process without class names. *)
Lemma load_config_null_names w c :
  update (param w) = true ->
  configFile (param w) <> ""%string ->
  yaml_load (configFile (param w)) = inr c ->
  class_names c = Some None ->
  fst (load_config w) = inr tt /\
  cfg (self (snd (load_config w))) = Some c /\
  classes (self (snd (load_config w))) = None.
Proof.
  intros Hu Hf Hy Hn. unfold load_config, bind, get_self, get_param. simpl.
  rewrite Hu, orb_true_r.
  destruct (String.eqb_spec (configFile (param w)) ""); [contradiction|].
  simpl. unfold bind, lift. rewrite Hy. simpl. rewrite Hn. simpl.
  repeat split.
Qed.

Lemma load_config_skip w c :
  cfg (self w) = Some c -> update (param w) = false ->
  load_config w = (inr tt, w).
Proof.
  intros Hc Hu. unfold load_config, bind, get_self, get_param. simpl.
  rewrite Hc, Hu. reflexivity.
Qed.

Lemma load_config_unnamed w :
  configFile (param w) = ""%string -> load_config w = (inr tt, w).
Proof.
  intros Hf. unfold load_config, bind, get_self, get_param. simpl.
  rewrite Hf. rewrite andb_false_r. reflexivity.
Qed.


Lemma build_model_skip w m :
  model (self w) = Some m -> update (param w) = false ->
  build_model w = (inr tt, w).
Proof.
  intros Hm Hu. unfold build_model, bind, get_self, get_param. simpl.
  rewrite Hm, Hu. destruct (cfg (self w)); reflexivity.
Qed.

Lemma build_model_no_config w :
  cfg (self w) = None -> build_model w = (inr tt, w).
Proof.
  intros Hc. unfold build_model, bind, get_self, get_param. simpl.
  rewrite Hc. reflexivity.
Qed.

(** Whenever the network step goes past its guard and the constructor
    returns, [self.model] is a new object, whatever happens afterwards. *)
Lemma build_model_constructs w c size n :
  cfg (self w) = Some c ->
  is_None (model (self w)) || update (param w) = true ->
  img_size c = Some size -> n_classes c = Some n ->
  ViT_seg c size n = None ->
  exists m, model (self (snd (build_model w))) = Some m /\
            mid m = next_id w /\ built_from m = c /\
            next_id (snd (build_model w)) = S (next_id w).
Proof.
  intros Hc Hg Hs Hn Hv. run_build. rewrite Hc, Hg, Hs, Hn. cbn. rewrite Hv. cbn.
  destruct cuda_is_available; cbn;
    destruct (isfile (modelFile (param w))); cbn;
    try match goal with
        | |- context [load_state_dict ?m ?p] => destruct (load_state_dict m p)
        end; cbn; eexists; repeat split; reflexivity.
Qed.

(** A network step that goes past its guard and completes leaves a new
    object in inference mode. *)
Lemma build_model_rebuilds w c :
  cfg (self w) = Some c ->
  is_None (model (self w)) || update (param w) = true ->
  fst (build_model w) = inr tt ->
  exists m, model (self (snd (build_model w))) = Some m /\
            mid m = next_id w /\ built_from m = c /\ training m = false /\
            next_id (snd (build_model w)) = S (next_id w).
Proof.
  intros Hc Hg. run_build. rewrite Hc, Hg.
  destruct (img_size c) as [size|]; cbn; [|discriminate].
  destruct (n_classes c) as [n|]; cbn; [|discriminate].
  destruct (ViT_seg c size n); cbn; [discriminate|].
  destruct cuda_is_available; cbn;
    destruct (isfile (modelFile (param w))); cbn;
    try match goal with
        | |- context [load_state_dict ?m ?p] => destruct (load_state_dict m p)
        end; cbn; try discriminate;
    intros _; eexists; repeat split; reflexivity.
Qed.

End RunSteps.

(** ** The model cache *)

Section ModelCache.

Context `{Host}.

(** C3 (as the code has it).  When the network step raises, either the
    constructor did not return and the cache and the object counter are as
    before, or the constructor returned, loading the weight file raised, and
    the new object stays in [self.model], still in training mode and with
    its weights marked as not loaded. *)
Theorem failed_build_and_the_cache w e :
  fst (build_model w) = inl e ->
  (model (self (snd (build_model w))) = model (self w) /\
   next_id (snd (build_model w)) = next_id w /\
   exists c, cfg (self w) = Some c /\
             (img_size c = None \/ n_classes c = None \/
              exists size n, img_size c = Some size /\ n_classes c = Some n /\
                             ViT_seg c size n = Some e))
  \/
  (exists c size n m,
      cfg (self w) = Some c /\ img_size c = Some size /\ n_classes c = Some n /\
      ViT_seg c size n = None /\ isfile (modelFile (param w)) = true /\
      model (self (snd (build_model w))) = Some m /\
      mid m = next_id w /\ training m = true /\
      weights m = LoadFailed (modelFile (param w))).
Proof.
  run_build.
  destruct (cfg (self w)) as [c|]; [|discriminate].
  destruct (is_None (model (self w)) || update (param w)); [|discriminate].
  destruct (img_size c) as [size|] eqn:Hs; cbn;
    [|intros _; left; repeat split; exists c; auto].
  destruct (n_classes c) as [n|] eqn:Hn; cbn;
    [|intros _; left; repeat split; exists c; auto].
  destruct (ViT_seg c size n) as [e'|] eqn:Hv; cbn.
  { intros He. injection He as ->. left. repeat split. exists c. split; [reflexivity|].
    right. right. exists size, n. auto. }
  destruct cuda_is_available; cbn;
    destruct (isfile (modelFile (param w))) eqn:Hf; cbn; try discriminate;
    match goal with
    | |- context [load_state_dict ?m ?p] => destruct (load_state_dict m p)
    end; cbn; try discriminate;
    intros _; right; exists c, size, n; eexists;
    repeat split; first [assumption | reflexivity].
Qed.

Lemma run_success_inv img w :
  fst (run img w) = inr tt ->
  exists w1 w2,
    load_config (snd (seed 10 w)) = (inr tt, w1) /\
    build_model w1 = (inr tt, w2) /\
    run img w = inference img w2.
Proof.
  rewrite run_unfold.
  destruct (load_config (snd (seed 10 w))) as [[e|[]] w1]; [discriminate|].
  destruct (build_model w1) as [[e|[]] w2] eqn:Hb; [discriminate|].
  intros _. exists w1, w2. auto.
Qed.

(** Without the update flag a cached network is kept: no object is
    constructed, whatever the parameters name as configuration or weights. *)
Lemma run_keeps_cached_model img w m :
  model (self w) = Some m -> update (param w) = false ->
  model (self (snd (run img w))) = Some m /\
  next_id (snd (run img w)) = next_id w.
Proof.
  intros Hm Hu. rewrite run_unfold.
  destruct load_config_frame as (Lm & _ & Lp & _ & _ & Ln & _).
  destruct (inference_frame img) as (Im & _ & _ & _ & _ & In).
  specialize (Lm (snd (seed 10 w))). specialize (Lp (snd (seed 10 w))).
  specialize (Ln (snd (seed 10 w))).
  destruct (load_config (snd (seed 10 w))) as [[e|[]] w1]; simpl in *.
  - rewrite Lm, Ln. auto.
  - rewrite (@build_model_skip _ w1 m); [| rewrite Lm; exact Hm | rewrite Lp; exact Hu].
    rewrite (Im w1), (In w1), Lm, Ln. auto.
Qed.

(** With the update flag set, a run that completes with a configuration
    loaded has constructed a new object from that configuration. *)
Lemma run_with_update_rebuilds img w c :
  update (param w) = true ->
  fst (run img w) = inr tt ->
  cfg (self (snd (run img w))) = Some c ->
  exists m, model (self (snd (run img w))) = Some m /\
            mid m = next_id w /\ built_from m = c /\ training m = false /\
            next_id (snd (run img w)) = S (next_id w).
Proof.
  intros Hu Hok Hc.
  destruct (run_success_inv img w Hok) as (w1 & w2 & Hl & Hb & Hr).
  destruct load_config_frame as (_ & _ & Lp & _ & _ & Ln & _).
  destruct build_model_frame as (Bc & _).
  destruct (inference_frame img) as (Im & Ic & _ & _ & _ & In).
  specialize (Lp (snd (seed 10 w))). specialize (Ln (snd (seed 10 w))).
  rewrite Hl in Lp, Ln. simpl in Lp, Ln.
  specialize (Bc w1). rewrite Hb in Bc. simpl in Bc.
  rewrite Hr in Hc |- *. rewrite (Ic w2), Bc in Hc.
  destruct (@build_model_rebuilds _ w1 c Hc) as (m & Hm & Hid & Hbf & Ht & Hn).
  - rewrite Lp, Hu. apply orb_true_r.
  - rewrite Hb. reflexivity.
  - rewrite Hb in Hm, Hn. simpl in Hm, Hn.
    exists m. rewrite (Im w2), (In w2), Hm, Hn, Hid, Ln. auto.
Qed.

(** C2 (as the code has it).  A run without the update flag returns the
    cached handle and constructs nothing, also when the parameters name
    another configuration; a completed run with the update flag constructs a
    new handle, distinct from a handle constructed earlier. *)
Theorem cached_handle_reused_until_update img w :
  (forall m, model (self w) = Some m -> update (param w) = false ->
             model (self (snd (run img w))) = Some m /\
             next_id (snd (run img w)) = next_id w)
  /\
  (forall c, update (param w) = true ->
             fst (run img w) = inr tt ->
             cfg (self (snd (run img w))) = Some c ->
             exists m', model (self (snd (run img w))) = Some m' /\
                        mid m' = next_id w /\ built_from m' = c /\
                        next_id (snd (run img w)) = S (next_id w) /\
                        forall m, model (self w) = Some m -> mid m < next_id w ->
                                  mid m' <> mid m).
Proof.
  split.
  - intros m Hm Hu. apply run_keeps_cached_model; assumption.
  - intros c Hu Hok Hc.
    destruct (run_with_update_rebuilds img w Hu Hok Hc) as (m' & Hm' & Hid & Hbf & _ & Hn).
    exists m'. repeat split; try assumption.
    intros m _ Hlt. lia.
Qed.

End ModelCache.

(** ** The inference step and the update flag *)

Section UpdateFlag.

Context `{Host}.

Lemma seed_fields a w :
  self (snd (seed a w)) = self w /\
  param (snd (seed a w)) = param w /\
  outputs (snd (seed a w)) = outputs w /\
  rng (snd (seed a w)) = random_seed a /\
  next_id (snd (seed a w)) = next_id w /\
  forward_calls (snd (seed a w)) = forward_calls w.
Proof. repeat split. Qed.

Lemma inference_skip img w :
  model (self w) = None \/ img = None -> inference img w = (inr tt, w).
Proof.
  intros Hn. unfold inference, bind, get_self. simpl.
  destruct Hn as [-> | ->]; [reflexivity|].
  destruct (model (self w)); reflexivity.
Qed.

Lemma inference_run m i w :
  model (self w) = Some m ->
  inference (Some i) w = bind (predict m i) (fun _ => bind build_colors (fun _ => publish i)) w.
Proof.
  intros Hm. unfold inference at 1. unfold bind at 1. unfold get_self. simpl.
  rewrite Hm. reflexivity.
Qed.

Lemma clears_bind (A : Type) (m : M A) (k : A -> M unit) :
  preserves (fun w => update (param w)) m ->
  (forall a, clears_on_success (k a)) ->
  clears_on_success (bind m k).
Proof.
  intros Hm Hk w. unfold bind. specialize (Hm w).
  destruct (m w) as [[e|a] w1]; simpl in *.
  - right. exists e. auto.
  - destruct (Hk a w1) as [[H1 H2] | (e & H1 & H2)].
    + left. auto.
    + right. exists e. rewrite H2, Hm. auto.
Qed.

Lemma publish_clears i : clears_on_success (publish i).
Proof.
  unfold publish. repeat (apply clears_bind; [frame | intros ?a]).
  intros w. left. split; reflexivity.
Qed.

Lemma inference_clears m i w :
  model (self w) = Some m ->
  (fst (inference (Some i) w) = inr tt /\
   update (param (snd (inference (Some i) w))) = false) \/
  (exists e, fst (inference (Some i) w) = inl e /\
             update (param (snd (inference (Some i) w))) = update (param w)).
Proof.
  intros Hm. rewrite (inference_run i w Hm).
  revert w Hm. intros w _. revert w.
  change (clears_on_success
            (bind (predict m i) (fun _ => bind build_colors (fun _ => publish i)))).
  apply clears_bind.
  { unfold predict. frame. }
  intros _. apply clears_bind.
  { unfold build_colors, append_color. frame. }
  intros _. apply publish_clears.
Qed.


End UpdateFlag.

(** ** The colour map *)

Section ColorMap.

Context `{Host}.

Lemma append_color_draws w l j :
  colors (self w) = Some l -> rng w = state_after j ->
  fst (append_color w) = inr tt /\
  colors (self (snd (append_color w))) =
    Some (l ++ [[draw j; draw (S j); draw (S (S j)); 255%Z]]) /\
  rng (snd (append_color w)) = state_after (S (S (S j))).
Proof.
  intros Hl Hr. unfold append_color, bind, randint, get_self, set_colors, put_self.
  cbn. rewrite Hl. cbn. rewrite Hr. repeat split.
Qed.

Lemma seeded_entry_S i :
  seeded_entry (S i) = [draw (3 * i); draw (S (3 * i)); draw (S (S (3 * i))); 255%Z].
Proof.
  unfold seeded_entry.
  replace (S i - 1) with i by lia.
  replace (3 * i + 1) with (S (3 * i)) by lia.
  replace (3 * i + 2) with (S (S (3 * i))) by lia.
  reflexivity.
Qed.

Lemma append_color_step w l i :
  colors (self w) = Some l -> rng w = state_after (3 * i) ->
  fst (append_color w) = inr tt /\
  colors (self (snd (append_color w))) = Some (l ++ [seeded_entry (S i)]) /\
  rng (snd (append_color w)) = state_after (3 * S i).
Proof.
  intros Hl Hr. destruct (@append_color_draws w l _ Hl Hr) as (H1 & H2 & H3).
  rewrite seeded_entry_S. repeat split; try assumption.
  rewrite H3. f_equal. lia.
Qed.

Lemma repeat_append_color k :
  forall w l i,
    colors (self w) = Some l -> rng w = state_after (3 * i) ->
    fst (repeatM k append_color w) = inr tt /\
    colors (self (snd (repeatM k append_color w))) =
      Some (l ++ map seeded_entry (seq (S i) k)) /\
    rng (snd (repeatM k append_color w)) = state_after (3 * (i + k)).
Proof.
  induction k as [|k IH]; intros w l i Hl Hr.
  - simpl. rewrite app_nil_r, Nat.add_0_r. auto.
  - destruct (@append_color_step w l i Hl Hr) as (H1 & H2 & H3).
    cbn [repeatM]. unfold bind.
    destruct (append_color w) as [[e|[]] w1]; simpl in H1, H2, H3; [discriminate|].
    destruct (IH w1 _ (S i) H2 H3) as (K1 & K2 & K3).
    rewrite K1, K2, K3. repeat split.
    + rewrite <- app_assoc. reflexivity.
    + f_equal. lia.
Qed.

(** When the guard of the colour block holds and the generator was seeded at
    the start of the run, the block leaves the colour map of the
    specification. *)
Lemma build_colors_rebuild w names :
  classes (self w) = Some names ->
  is_None (colors (self w)) || update (param w) = true ->
  rng w = random_seed 10 ->
  fst (build_colors w) = inr tt /\
  colors (self (snd (build_colors w))) = Some (seeded_color_map (length names)).
Proof.
  intros Hn Hg Hr. unfold build_colors.
  rewrite (@bind_inr _ _ _ get_self _ w (self w) w eq_refl). cbv beta.
  rewrite (@bind_inr _ _ _ get_param _ w (param w) w eq_refl). cbv beta.
  rewrite Hg, Hn. cbn [when].
  set (w0 := snd (set_colors (Some [[0; 0; 0]%Z]) w)).
  rewrite (@bind_inr _ _ _ (set_colors (Some [[0; 0; 0]%Z])) _ w tt w0 eq_refl).
  destruct (@repeat_append_color (length names - 1) w0 [[0; 0; 0]%Z] 0 eq_refl Hr)
    as (K1 & K2 & K3).
  destruct (repeatM (length names - 1) append_color w0) as [[e|[]] w1] eqn:E;
    simpl in K1, K2, K3; [discriminate|].
  rewrite (@bind_inr _ _ _ _ _ _ _ _ E).
  unfold bind, get_self, put_outputs. cbn. rewrite K2. split; reflexivity.
Qed.

Lemma build_colors_keep w cs :
  colors (self w) = Some cs -> update (param w) = false ->
  build_colors w = (inr tt, w).
Proof.
  intros Hc Hu. unfold build_colors, bind, get_self, get_param. cbn.
  rewrite Hc, Hu. reflexivity.
Qed.

Lemma seeded_color_map_entries n :
  length (seeded_color_map n) = S (n - 1) /\
  nth 0 (seeded_color_map n) [] = [0; 0; 0]%Z /\
  forall k, 1 <= k < n ->
            nth k (seeded_color_map n) [] =
            [draw (3 * (k - 1)); draw (3 * (k - 1) + 1); draw (3 * (k - 1) + 2); 255%Z].
Proof.
  unfold seeded_color_map. repeat split.
  - simpl. rewrite length_map, length_seq. reflexivity.
  - intros k Hk. destruct k as [|k]; [lia|]. cbn [nth].
    rewrite (nth_indep _ [] (seeded_entry 0)) by (rewrite length_map, length_seq; lia).
    rewrite map_nth, seq_nth by lia. reflexivity.
Qed.

Lemma inference_success_inv m i w :
  model (self w) = Some m ->
  fst (inference (Some i) w) = inr tt ->
  exists w3 w4,
    predict m i w = (inr tt, w3) /\
    build_colors w3 = (inr tt, w4) /\
    inference (Some i) w = publish i w4.
Proof.
  intros Hm. rewrite (inference_run i w Hm). unfold bind at 1.
  destruct (predict m i w) as [[e|[]] w3] eqn:Hp; [discriminate|].
  unfold bind at 1.
  destruct (build_colors w3) as [[e|[]] w4] eqn:Hc; [discriminate|].
  intros _. exists w3, w4. repeat split; try assumption.
  unfold bind. rewrite Hp, Hc. reflexivity.
Qed.

(** The colour map after a completed run that rebuilt it. *)
Lemma run_rebuilds_colors i w names :
  fst (run (Some i) w) = inr tt ->
  model (self (snd (run (Some i) w))) <> None ->
  is_None (colors (self w)) || update (param w) = true ->
  classes (self (snd (run (Some i) w))) = Some names ->
  colors (self (snd (run (Some i) w))) = Some (seeded_color_map (length names)).
Proof.
  intros Hok Hm Hg Hn.
  destruct (run_success_inv (Some i) w Hok) as (w1 & w2 & Hl & Hb & Hr).
  destruct load_config_frame as (_ & Lc & Lp & _ & Lr & _).
  destruct build_model_frame as (_ & _ & Bc & Bp & _ & Br & _).
  destruct (inference_frame (Some i)) as (Im & _ & Icl & _).
  specialize (Lc (snd (seed 10 w))). specialize (Lp (snd (seed 10 w))).
  specialize (Lr (snd (seed 10 w))). rewrite Hl in Lc, Lp, Lr. simpl in Lc, Lp, Lr.
  specialize (Bc w1). specialize (Bp w1). specialize (Br w1).
  rewrite Hb in Bc, Bp, Br. simpl in Bc, Bp, Br.
  rewrite Hr in Hm, Hn, Hok |- *. rewrite (Im w2) in Hm. rewrite (Icl w2) in Hn.
  destruct (model (self w2)) as [m|] eqn:Hm2; [|congruence].
  destruct (inference_success_inv i w2 Hm2 Hok) as (w3 & w4 & Hp & Hc & Hpub).
  destruct (predict_frame m i) as (Ps & Pp & Pr & _).
  specialize (Ps w2). specialize (Pp w2). specialize (Pr w2).
  rewrite Hp in Ps, Pp, Pr. simpl in Ps, Pp, Pr.
  destruct (@build_colors_rebuild w3 names) as (_ & Hcol).
  - rewrite Ps. exact Hn.
  - rewrite Ps, Pp, Bc, Bp, Lc, Lp. exact Hg.
  - rewrite Pr, Br, Lr. reflexivity.
  - rewrite Hc in Hcol. simpl in Hcol.
    destruct (publish_frame i) as (Us & _). rewrite Hpub, (Us w4). exact Hcol.
Qed.

(** C7.  Two completed runs that rebuild the colour map for the same number
    of classes leave the same colour map, whatever else differs between
    them; its entry 0 is (0, 0, 0), and entry [k >= 1] holds the draws
    numbered [3 (k - 1)], [3 (k - 1) + 1] and [3 (k - 1) + 2] of the
    generator seeded with 10 at the start of the run, followed by 255. *)
Theorem color_map_is_seeded_and_sequential i1 w1 i2 w2 names1 names2 :
  fst (run (Some i1) w1) = inr tt ->
  fst (run (Some i2) w2) = inr tt ->
  model (self (snd (run (Some i1) w1))) <> None ->
  model (self (snd (run (Some i2) w2))) <> None ->
  is_None (colors (self w1)) || update (param w1) = true ->
  is_None (colors (self w2)) || update (param w2) = true ->
  classes (self (snd (run (Some i1) w1))) = Some names1 ->
  classes (self (snd (run (Some i2) w2))) = Some names2 ->
  length names1 = length names2 ->
  exists cm,
    colors (self (snd (run (Some i1) w1))) = Some cm /\
    colors (self (snd (run (Some i2) w2))) = Some cm /\
    nth 0 cm [] = [0; 0; 0]%Z /\
    forall k, 1 <= k < length names1 ->
              nth k cm [] =
              [draw (3 * (k - 1)); draw (3 * (k - 1) + 1); draw (3 * (k - 1) + 2);
               255%Z].
Proof.
  intros Hok1 Hok2 Hm1 Hm2 Hg1 Hg2 Hn1 Hn2 Hlen.
  exists (seeded_color_map (length names1)).
  destruct (seeded_color_map_entries (length names1)) as (_ & H0 & Hk).
  repeat split; try assumption.
  - apply run_rebuilds_colors; assumption.
  - rewrite Hlen. apply run_rebuilds_colors; assumption.
Qed.

End ColorMap.

(** ** The update flag across runs *)

Section NextRun.

Context `{Host}.





End NextRun.

(** ** Validation of the input image *)

Section InputChecks.

Context `{Host}.

Lemma preprocess_rank c img :
  length (shape img) <> 3 -> preprocess c img = inl ValueError.
Proof.
  intros Hr. unfold preprocess.
  destruct (shape img) as [|h [|w [|ch [|]]]]; try reflexivity.
  simpl in Hr. congruence.
Qed.

Lemma bind_calls (A : Type) (m : M A) (k : A -> M unit) w :
  (forall a, preserves forward_calls (k a)) ->
  forward_calls (snd (bind m k w)) = forward_calls (snd (m w)).
Proof.
  intros Hk. unfold bind. destruct (m w) as [[e|a] w1]; simpl; [reflexivity|].
  apply Hk.
Qed.

Lemma predict_calls m img w :
  (forall e, preprocess (cfg (self w)) img = inl e ->
             fst (predict m img w) = inl e /\
             forward_calls (snd (predict m img w)) = forward_calls w) /\
  (forall hwx, preprocess (cfg (self w)) img = inr hwx ->
               forward_calls (snd (predict m img w)) = S (forward_calls w)).
Proof.
  unfold predict, bind, get_self, lift, call_forward, put_outputs. cbn. split.
  - intros e He. rewrite He. split; reflexivity.
  - intros hwx Hp. rewrite Hp. cbn.
    destruct (forward m (snd hwx)) as [e|pred]; cbn; [reflexivity|].
    destruct (decode (fst (fst hwx)) (snd (fst hwx)) pred); reflexivity.
Qed.

Lemma run_on_cached w m c img :
  model (self w) = Some m -> cfg (self w) = Some c -> update (param w) = false ->
  run (Some img) w =
  bind (predict m img) (fun _ => bind build_colors (fun _ => publish img))
       (snd (seed 10 w)).
Proof.
  intros Hm Hc Hu. rewrite run_unfold.
  rewrite (@load_config_skip _ (snd (seed 10 w)) c Hc Hu).
  rewrite (@build_model_skip _ (snd (seed 10 w)) m Hm Hu).
  apply inference_run. exact Hm.
Qed.

Lemma preprocess_empty c img h wd ch size :
  shape img = [h; wd; ch] -> h = 0 \/ wd = 0 \/ ch = 0 ->
  img_size c = Some size ->
  preprocess (Some c) img = inl RuntimeError.
Proof.
  intros Hs He Hsize. unfold preprocess. rewrite Hs.
  cbn [cfg_attr]. rewrite Hsize. cbn [getattr rbind].
  unfold Resize_bicubic. cbn [shape tmap permute stack1 map nth fst snd].
  rewrite Hs. cbn [nth].
  replace (empty_size ch h wd size size) with true; [reflexivity|].
  unfold empty_size. destruct He as [-> | [-> | ->]]; cbn [Nat.eqb orb];
    rewrite ?orb_true_r; reflexivity.
Qed.

(** C8 (as the code has it).  With a network cached, the only check the
    plugin makes on the source image before the forward pass is that its
    shape has three axes: an image of another rank makes the run raise
    [ValueError] with no forward pass.  An image with three axes of which
    one is empty is refused by the resize, with [RuntimeError] and no
    forward pass.  Every image with three axes and at least one row, one
    column and one channel goes through the forward pass, whatever the
    number of its channels and its pixel values. *)
Theorem only_the_rank_of_the_image_is_checked img w m c :
  model (self w) = Some m -> cfg (self w) = Some c -> update (param w) = false ->
  (length (shape img) <> 3 ->
   fst (run (Some img) w) = inl ValueError /\
   forward_calls (snd (run (Some img) w)) = forward_calls w)
  /\
  (forall h wd ch size,
      shape img = [h; wd; ch] -> h = 0 \/ wd = 0 \/ ch = 0 ->
      img_size c = Some size ->
      fst (run (Some img) w) = inl RuntimeError /\
      forward_calls (snd (run (Some img) w)) = forward_calls w)
  /\
  (forall h wd ch size pp,
      shape img = [h; wd; ch] -> 1 <= h -> 1 <= wd -> 1 <= ch ->
      img_size c = Some size -> 1 <= size -> pretrained_path c = Some pp ->
      forward_calls (snd (run (Some img) w)) = S (forward_calls w)).
Proof.
  intros Hm Hc Hu. rewrite (@run_on_cached w m c img Hm Hc Hu).
  destruct (predict_calls m img (snd (seed 10 w))) as (Perr & Pok).
  assert (Hrest : forall a : unit,
             preserves forward_calls (bind build_colors (fun _ => publish img))).
  { intros _. unfold build_colors, append_color, publish. frame. }
  split.
  - intros Hr. specialize (Perr ValueError (@preprocess_rank _ img Hr)).
    destruct Perr as (Pe & Pc). split.
    + unfold bind at 1.
      destruct (predict m img (snd (seed 10 w))) as [[e|a] w1]; simpl in Pe |- *;
        [exact Pe | discriminate].
    + rewrite (@bind_calls _ _ _ _ Hrest). exact Pc.
  - split.
    intros h wd ch size Hs He Hsize.
    assert (Hp : preprocess (cfg (self (snd (seed 10 w)))) img = inl RuntimeError).
    { simpl. rewrite Hc. exact (@preprocess_empty c img h wd ch size Hs He Hsize). }
    destruct (Perr RuntimeError Hp) as (Pe & Pc). split.
    + unfold bind at 1.
      destruct (predict m img (snd (seed 10 w))) as [[e|a] w1]; simpl in Pe |- *;
        [exact Pe | discriminate].
    + rewrite (@bind_calls _ _ _ _ Hrest). exact Pc.
    + intros h wd ch size pp Hs Hh Hw Hch Hsize Hpos Hpp.
    destruct (@preprocess_total _ c img h wd ch size pp Hs Hh Hw Hch Hsize Hpos Hpp)
      as (x & Hx & _).
    rewrite (@bind_calls _ _ _ _ Hrest).
    apply (Pok (h, wd, x)). simpl. rewrite Hc. exact Hx.
Qed.

End InputChecks.

(** ** The legend *)

Lemma legend_rows_rects (names : list string) (rh : Z) (cs : list (list Z)) :
  forall pre,
    length pre + length cs <= length names ->
    exists l,
      legend_rows (Some names) rh 333 (length pre) cs = inr l /\
      rects_of l = map (legend_rect rh (pre ++ cs)) (seq (length pre) (length cs)).
Proof.
  induction cs as [|c cs IH]; intros pre Hlen.
  - exists []. split; reflexivity.
  - simpl in Hlen.
    destruct (IH (pre ++ [c])) as (l & Hl & Hr).
    { rewrite length_app. simpl. lia. }
    rewrite length_app in Hl, Hr. simpl in Hl, Hr.
    rewrite Nat.add_1_r in Hl, Hr. rewrite <- app_assoc in Hr. simpl in Hr.
    cbn [legend_rows class_name_at].
    destruct (nth_error names (length pre)) as [name|] eqn:Hname.
    2:{ apply nth_error_None in Hname. lia. }
    cbn [rbind]. rewrite Hl. cbn [rbind].
    eexists. split; [reflexivity|].
    cbn [rects_of flat_map app length seq map]. fold (rects_of l). rewrite Hr.
    f_equal. unfold legend_rect. rewrite nth_middle.
    replace (Z.of_nat (length pre) * rh + 5 + 5)%Z
      with (Z.of_nat (length pre) * rh + 10)%Z by lia.
    replace ((Z.of_nat (length pre) + 1) * rh + 5 - 5)%Z
      with ((Z.of_nat (length pre) + 1) * rh)%Z by lia.
    reflexivity.
Qed.

Lemma stacked_rows (rh : Z) (cs : list (list Z)) (k : nat) :
  forall i, stacked (map (legend_rect rh cs) (seq i k)) = true <->
            (k = 0 \/ (10 <= rh)%Z).
Proof.
  induction k as [|k IH]; intros i.
  - simpl. split; auto.
  - cbn [seq map stacked]. rewrite !andb_true_iff, IH.
    unfold rect_top at 1, rect_bottom at 1. unfold legend_rect at 1 2. cbn [fst snd].
    rewrite Z.leb_le. split.
    + intros ((Hwf & _) & _). right. lia.
    + intros [Hk | Hrh]; [discriminate|]. repeat split.
      * lia.
      * destruct k as [|k]; [reflexivity|]. cbn [seq map].
        unfold rect_bottom, rect_top, legend_rect. cbn [fst snd].
        apply Z.ltb_lt. lia.
      * right. exact Hrh.
Qed.

Lemma row_pitch_facts (n : nat) :
  1 <= n ->
  let rh := Z.min 100 (1000 / Z.of_nat n) in
  (0 <= rh)%Z /\ (Z.of_nat n * rh <= 1000)%Z /\ ((10 <= rh)%Z <-> n <= 100).
Proof.
  intros Hn rh.
  assert (Hpos : (0 < Z.of_nat n)%Z) by lia.
  pose proof (Z.mul_div_le 1000 (Z.of_nat n) Hpos) as Hmul.
  assert (Hq : (0 <= 1000 / Z.of_nat n)%Z) by (apply Z.div_pos; lia).
  repeat split.
  - unfold rh. lia.
  - unfold rh. nia.
  - intros Hrh. unfold rh in Hrh.
    assert (10 <= 1000 / Z.of_nat n)%Z by lia. nia.
  - intros Hle. unfold rh.
    assert (10 <= 1000 / Z.of_nat n)%Z by (apply Z.div_le_lower_bound; lia).
    lia.
Qed.

(** C9 (as the code has it).  For every class count from 1 on, the legend is
    a 1000 x 1000 canvas on which one filled rectangle per class is drawn in
    class-index order; rectangle [i] has the corners (10, i * rh + 10) and
    (343, (i + 1) * rh) with the row pitch rh = min(100, 1000 / num_classes),
    and num_classes * rh never exceeds 1000.  The rectangles are stacked top
    to bottom exactly when there are at most 100 classes. *)
Theorem legend_layout (s : Self) (cs : list (list Z)) (names : list string) :
  colors s = Some cs -> classes s = Some names ->
  length cs = length names -> 1 <= length names ->
  exists lg,
    draw_legend s = inr lg /\
    legend_h lg = 1000%Z /\ legend_w lg = 1000%Z /\
    length (rectangles lg) = length names /\
    rectangles lg =
      map (legend_rect (Z.min 100 (1000 / Z.of_nat (length names))) cs)
          (seq 0 (length names)) /\
    (Z.of_nat (length names) * Z.min 100 (1000 / Z.of_nat (length names)) <= 1000)%Z /\
    (stacked (rectangles lg) = true <-> length names <= 100).
Proof.
  intros Hc Hn Hlen Hpos. unfold draw_legend. rewrite Hc, Hn, Hlen.
  destruct (Nat.eqb_spec (length names) 0) as [H0|_]; [lia|].
  destruct (@legend_rows_rects names (Z.min 100 (1000 / Z.of_nat (length names))) cs [])
    as (l & Hl & Hr).
  { simpl. lia. }
  simpl in Hl, Hr. change (1000 / 3)%Z with 333%Z. rewrite Hl. cbn [rbind].
  rewrite Hlen in Hr.
  destruct (row_pitch_facts Hpos) as (_ & Hmul & Hpitch).
  eexists. split; [reflexivity|]. unfold rectangles. cbn [ops legend_h legend_w].
  rewrite Hr. repeat split.
  - rewrite length_map, length_seq. reflexivity.
  - exact Hmul.
  - intros Hst. apply stacked_rows in Hst. destruct Hst as [Hz|Hrh]; [lia|].
    apply Hpitch. exact Hrh.
  - intros Hle. apply stacked_rows. right. apply Hpitch. exact Hle.
Qed.

(** * Concrete runs *)

(** C2, as stated, fails.  A process that built its network from "a.yaml"
    and is then pointed at "b.yaml", which holds another configuration,
    without the update flag: the run on an image keeps the handle built from
    the first configuration and constructs nothing. *)
Lemma changed_configuration_keeps_cached_handle :
  let w1 := set_params (params "b.yaml" "" false) warm in
  let w2 := snd (@run example_host (Some (const_image [2; 2; 3] 0)) w1) in
  model (self warm) = Some model_a /\
  built_from model_a = cfg_a /\
  @yaml_load example_host (configFile (param w1)) = inr cfg_b /\
  cfg_b <> cfg_a /\
  update (param w1) = false /\
  fst (@run example_host (Some (const_image [2; 2; 3] 0)) w1) = inr tt /\
  model (self w2) = Some model_a /\
  next_id w2 = next_id warm.
Proof.
  cbv zeta. repeat split; try reflexivity.
  intros Heq. discriminate Heq.
Qed.

Lemma cached_handle_reused_until_update_witness :
  (model (self warm) = Some model_a /\ update (param warm) = false /\
   model (self (snd (@run example_host None warm))) = Some model_a /\
   next_id (snd (@run example_host None warm)) = next_id warm)
  /\
  (let w := set_params (params "b.yaml" "" true) warm in
   update (param w) = true /\
   exists m', model (self (snd (@run example_host None w))) = Some m' /\
              mid m' = next_id w /\ built_from m' = cfg_b /\
              next_id (snd (@run example_host None w)) = S (next_id w) /\
              forall m, model (self w) = Some m -> mid m < next_id w ->
                        mid m' <> mid m).
Proof.
  split.
  - split; [reflexivity|]. split; [reflexivity|].
    apply (proj1 (@cached_handle_reused_until_update example_host None warm));
      reflexivity.
  - cbv zeta. split; [reflexivity|].
    apply (proj2 (@cached_handle_reused_until_update example_host None
                    (set_params (params "b.yaml" "" true) warm)));
      reflexivity.
Defined.

(** C3, as stated, fails.  The weight file exists and does not fit: the run
    raises, and the network constructed in that run, in training mode and
    without its weights, is what [self.model] holds afterwards, where nothing
    was cached before; the next run forwards the image through it. *)
Lemma failed_weight_load_leaves_unfinished_network_cached :
  let w0 := fresh mismatch_host (params "a.yaml" "w.pth" false) in
  let w1 := snd (@run mismatch_host None w0) in
  model (self w0) = None /\
  fst (@run mismatch_host None w0) = inl RuntimeError /\
  model (self w1) =
    Some {| mid := 0; built_from := cfg_a; net_img_size := 4; net_num_classes := 3;
            on_device := CPU; weights := LoadFailed "w.pth"; training := true |} /\
  model (self w1) <> model (self w0) /\
  fst (@run mismatch_host (Some (const_image [2; 2; 3] 0)) w1) = inr tt /\
  forward_calls (snd (@run mismatch_host (Some (const_image [2; 2; 3] 0)) w1)) = 1.
Proof.
  cbv zeta. repeat split; try reflexivity.
  intros Heq. discriminate Heq.
Qed.

Lemma failed_build_and_the_cache_witness :
  let w := snd (@load_config mismatch_host
                  (fresh mismatch_host (params "a.yaml" "w.pth" false))) in
  fst (@build_model mismatch_host w) = inl RuntimeError /\
  ((model (self (snd (@build_model mismatch_host w))) = model (self w) /\
    next_id (snd (@build_model mismatch_host w)) = next_id w /\
    exists c, cfg (self w) = Some c /\
              (img_size c = None \/ n_classes c = None \/
               exists size n, img_size c = Some size /\ n_classes c = Some n /\
                              @ViT_seg mismatch_host c size n = Some RuntimeError))
   \/
   (exists c size n m,
       cfg (self w) = Some c /\ img_size c = Some size /\ n_classes c = Some n /\
       @ViT_seg mismatch_host c size n = None /\
       @isfile mismatch_host (modelFile (param w)) = true /\
       model (self (snd (@build_model mismatch_host w))) = Some m /\
       mid m = next_id w /\ training m = true /\
       weights m = LoadFailed (modelFile (param w)))).
Proof.
  cbv zeta. split; [reflexivity|].
  apply (@failed_build_and_the_cache mismatch_host
           (snd (@load_config mismatch_host
                   (fresh mismatch_host (params "a.yaml" "w.pth" false))))
           RuntimeError).
  reflexivity.
Defined.

(** When the constructor itself raises, nothing is cached. *)
Example failed_constructor_leaves_cache_empty :
  let w0 := fresh broken_ctor_host (params "a.yaml" "" false) in
  fst (@run broken_ctor_host None w0) = inl RuntimeError /\
  model (self (snd (@run broken_ctor_host None w0))) = None.
Proof. split; reflexivity. Qed.

(** C8, as stated, fails.  An image with three channels whose values lie
    outside the 8-bit range, and an image with four channels: both runs
    complete, each after one forward pass. *)
Lemma images_outside_the_contract_reach_the_forward_pass :
  (fst (@run example_host (Some (const_image [2; 2; 3] 1000)) warm) = inr tt /\
   forward_calls (snd (@run example_host (Some (const_image [2; 2; 3] 1000)) warm)) =
   S (forward_calls warm))
  /\
  (fst (@run example_host (Some (const_image [2; 2; 4] 1000)) warm) = inr tt /\
   forward_calls (snd (@run example_host (Some (const_image [2; 2; 4] 1000)) warm)) =
   S (forward_calls warm)).
Proof. repeat split; reflexivity. Qed.

(** An image without channels is refused by the resize, before the forward
    pass. *)
Example image_without_channels_is_refused :
  fst (@run example_host (Some (const_image [2; 2; 0] 0)) warm) = inl RuntimeError /\
  forward_calls (snd (@run example_host (Some (const_image [2; 2; 0] 0)) warm)) =
  forward_calls warm.
Proof. split; reflexivity. Qed.

Lemma only_the_rank_of_the_image_is_checked_witness :
  model (self warm) = Some model_a /\ cfg (self warm) = Some cfg_a /\
  update (param warm) = false /\
  (fst (@run example_host (Some (const_image [2; 2] 7)) warm) = inl ValueError /\
   forward_calls (snd (@run example_host (Some (const_image [2; 2] 7)) warm)) =
   forward_calls warm).
Proof.
  repeat (split; [reflexivity|]).
  apply (proj1 (@only_the_rank_of_the_image_is_checked example_host
                  (const_image [2; 2] 7) warm model_a cfg_a
                  eq_refl eq_refl eq_refl)).
  simpl. lia.
Defined.

(** C9, as stated, fails.  With 1001 classes the row pitch is 0 and every
    rectangle has the corners (10, 10) and (343, 0): the rectangles coincide
    instead of being stacked. *)
Lemma legend_of_1001_classes_is_not_stacked :
  exists lg,
    draw_legend crowded = inr lg /\
    length (rectangles lg) = 1001 /\
    nth 0 (rectangles lg) ((0, 0), (0, 0), [])%Z = ((10, 10), (343, 0), [0; 0; 0])%Z /\
    nth 1 (rectangles lg) ((0, 0), (0, 0), [])%Z = ((10, 10), (343, 0), [0; 0; 0])%Z /\
    stacked (rectangles lg) = false.
Proof.
  eexists. split; [vm_compute; reflexivity|]. vm_compute. repeat split; reflexivity.
Qed.

Lemma legend_layout_witness :
  exists lg,
    draw_legend two_classes = inr lg /\
    legend_h lg = 1000%Z /\ legend_w lg = 1000%Z /\
    length (rectangles lg) = 2 /\
    rectangles lg =
      map (legend_rect (Z.min 100 (1000 / Z.of_nat 2))
                       [[0; 0; 0]; [10; 20; 30; 255]]%Z)
          (seq 0 2) /\
    (Z.of_nat 2 * Z.min 100 (1000 / Z.of_nat 2) <= 1000)%Z /\
    (stacked (rectangles lg) = true <-> 2 <= 100).
Proof.
  apply (@legend_layout two_classes [[0; 0; 0]; [10; 20; 30; 255]]%Z
           ["bg"; "cat"]%string); try reflexivity.
  simpl. lia.
Defined.

(** Two processes in different states, on different images, both building
    the colour map for three classes. *)
Lemma color_map_is_seeded_and_sequential_witness :
  let i1 := const_image [2; 2; 3] 0 in
  let w1 := fresh example_host (params "a.yaml" "" false) in
  let i2 := const_image [3; 2; 3] 200 in
  let w2 := set_params (params "a.yaml" "" true) warm in
  exists cm,
    colors (self (snd (@run example_host (Some i1) w1))) = Some cm /\
    colors (self (snd (@run example_host (Some i2) w2))) = Some cm /\
    nth 0 cm [] = [0; 0; 0]%Z /\
    forall k, 1 <= k < 3 ->
              nth k cm [] =
              [@draw example_host (3 * (k - 1)); @draw example_host (3 * (k - 1) + 1);
               @draw example_host (3 * (k - 1) + 2); 255%Z].
Proof.
  cbv zeta.
  apply (@color_map_is_seeded_and_sequential example_host
           (const_image [2; 2; 3] 0)
           (fresh example_host (params "a.yaml" "" false))
           (const_image [3; 2; 3] 200)
           (set_params (params "a.yaml" "" true) warm)
           ["bg"; "cat"; "dog"]%string ["bg"; "cat"; "dog"]%string);
    try reflexivity; vm_compute; discriminate.
Defined.



(** * Further properties of the code *)

(** ** The parameter container *)

(** X1.  Reading a parameter object into a map and storing that map on
    another object copies the two file names and nothing else: the update
    flag of the receiving object stays as it was.  Keys other than the two
    file names never appear in the map that is read out. *)
Theorem param_map_round_trip (p q : Param) :
  setParamMap (getParamMap p) q =
    (inr tt, {| configFile := configFile p; modelFile := modelFile p;
                update := update q |}) /\
  forall k, k <> "configFile"%string -> k <> "modelFile"%string ->
            getParamMap p k = None.
Proof.
  split.
  - reflexivity.
  - intros k Hc Hm. unfold getParamMap, map_set, empty_map.
    destruct (String.eqb_spec k "modelFile"); [contradiction|].
    destruct (String.eqb_spec k "configFile"); [contradiction|].
    reflexivity.
Qed.

(** X2.  Storing a map succeeds exactly when it holds both keys.  When only
    "modelFile" is missing, the call raises [KeyError] after the new
    configuration file name has been stored; when "configFile" is missing
    the object is left as it was. *)
Theorem setParamMap_missing_keys (m : ParamMap) (p : Param) :
  (fst (setParamMap m p) = inr tt <->
   m "configFile"%string <> None /\ m "modelFile"%string <> None)
  /\
  (m "configFile"%string = None ->
   setParamMap m p = (inl (KeyError "configFile"), p))
  /\
  (forall c, m "configFile"%string = Some c -> m "modelFile"%string = None ->
             setParamMap m p =
             (inl (KeyError "modelFile"),
              {| configFile := c; modelFile := modelFile p; update := update p |})).
Proof.
  unfold setParamMap, map_get. repeat split.
  - destruct (m "configFile"%string); [discriminate | simpl in *; discriminate].
  - destruct (m "configFile"%string); simpl in *; [|discriminate].
    destruct (m "modelFile"%string); simpl in *; discriminate.
  - intros (Hc & Hm). destruct (m "configFile"%string); [|congruence].
    destruct (m "modelFile"%string); [reflexivity | congruence].
  - intros Hc. rewrite Hc. reflexivity.
  - intros c Hc Hm. rewrite Hc, Hm. reflexivity.
Qed.

Lemma setParamMap_missing_keys_witness :
  let m := map_set "configFile" "a.yaml" empty_map in
  m "configFile"%string = Some "a.yaml"%string /\ m "modelFile"%string = None /\
  setParamMap m TransUNetParam_init =
    (inl (KeyError "modelFile"),
     {| configFile := "a.yaml"; modelFile := ""; update := false |}).
Proof.
  cbv zeta. split; [reflexivity|]. split; [reflexivity|].
  apply (proj2 (proj2 (setParamMap_missing_keys
                         (map_set "configFile" "a.yaml" empty_map)
                         TransUNetParam_init))); reflexivity.
Defined.

(** ** [Normalize] on any tensor *)

Section NormalizeFacts.

Variable A : Type.
Variables sub div : A -> A -> A.

Lemma fold_sub_div_elem (mean std : list A) :
  forall start n img b rest,
    elem (fold_left (fun img bms =>
                       sub_div_slice sub div (fst bms) (fst (snd bms)) (snd (snd bms)) img)
                    (combine (seq start n) (combine mean std)) img) (b :: rest) =
    match nth_error mean (b - start), nth_error std (b - start) with
    | Some m, Some s =>
        if (start <=? b) && (b <? start + n)
        then div (sub (elem img (b :: rest)) m) s
        else elem img (b :: rest)
    | _, _ => elem img (b :: rest)
    end.
Proof.
  revert std. induction mean as [|m mean IH]; intros std start n img b rest.
  - destruct (seq start n); simpl; destruct (b - start); reflexivity.
  - destruct std as [|s std].
    { destruct (seq start n); simpl combine; simpl fold_left.
      - destruct (b - start); simpl; [reflexivity|].
        destruct (nth_error mean n0); reflexivity.
      - destruct (b - start); simpl; [reflexivity|].
        destruct (nth_error mean n1); reflexivity. }
    destruct n as [|n].
    { simpl. rewrite Nat.add_0_r.
      destruct (Nat.leb_spec start b); destruct (Nat.ltb_spec b start); try lia;
        simpl; destruct (b - start) as [|d]; simpl; try reflexivity;
        destruct (nth_error mean d); try reflexivity;
        destruct (nth_error std d); reflexivity. }
    cbn [seq combine fold_left fst snd]. rewrite IH.
    cbn [sub_div_slice elem].
    destruct (Nat.eqb_spec b start) as [->|Hne].
    + rewrite Nat.sub_diag. cbn [nth_error].
      replace (start - S start) with 0 by lia.
      destruct (Nat.leb_spec (S start) start); [lia|].
      destruct (Nat.leb_spec start start); [|lia].
      destruct (Nat.ltb_spec start (start + S n)); [|lia].
      cbn [andb]. destruct (nth_error mean 0); [|reflexivity].
      destruct (nth_error std 0); reflexivity.
    + destruct (Nat.leb_spec start b) as [Hle|Hlt].
      * replace (b - start) with (S (b - S start)) by lia. cbn [nth_error].
        destruct (Nat.leb_spec (S start) b); [|lia].
        replace (S start + n) with (start + S n) by lia. reflexivity.
      * replace (b - start) with 0 by lia. replace (b - S start) with 0 by lia.
        destruct (Nat.leb_spec (S start) b); [lia|]. cbn [nth_error andb].
        clear IH. destruct mean; destruct std; reflexivity.
Qed.

Lemma Normalize_call_elem (mean std : list A) (x : tensor A) (b : nat)
      (rest : list nat) :
  elem (Normalize_call sub div mean std x) (b :: rest) =
    match nth_error mean b, nth_error std b with
    | Some m, Some s =>
        if b <? hd 0 (shape x)
        then div (sub (elem x (b :: rest)) m) s
        else elem x (b :: rest)
    | _, _ => elem x (b :: rest)
    end.
Proof.
  unfold Normalize_call. rewrite fold_sub_div_elem.
  rewrite Nat.sub_0_r. reflexivity.
Qed.

(** X3.  [Normalize] changes exactly the slices of the first axis for which
    the tensor, the means and the deviations all have an entry: slice [b]
    becomes [(x - mean[b]) / std[b]], every other slice is returned as it
    was, and the shape is kept. *)
Theorem Normalize_call_slices (mean std : list A) (x : tensor A) (b : nat)
        (rest : list nat) :
  shape (Normalize_call sub div mean std x) = shape x /\
  elem (Normalize_call sub div mean std x) (b :: rest) =
    match nth_error mean b, nth_error std b with
    | Some m, Some s =>
        if b <? hd 0 (shape x)
        then div (sub (elem x (b :: rest)) m) s
        else elem x (b :: rest)
    | _, _ => elem x (b :: rest)
    end.
Proof.
  split; [apply Normalize_call_shape | apply Normalize_call_elem].
Qed.

End NormalizeFacts.

(** X4.  On an unbatched image tensor of shape (3, h, w) [Normalize] with
    the plugin's constants is the per-channel normalisation: channel 0, 1, 2
    is shifted by 123.675, 116.280, 103.530 and divided by 58.395, 57.120,
    57.375. *)
Theorem Normalize_call_per_channel_when_unbatched (x : tensor R) (h w i j : nat) :
  shape x = [3; h; w] ->
  elem (Normalize_call Rminus Rdiv mean_R std_R x) [0; i; j] =
    Rdiv (Rminus (elem x [0; i; j]) 123.675%R) 58.395%R /\
  elem (Normalize_call Rminus Rdiv mean_R std_R x) [1; i; j] =
    Rdiv (Rminus (elem x [1; i; j]) 116.280%R) 57.120%R /\
  elem (Normalize_call Rminus Rdiv mean_R std_R x) [2; i; j] =
    Rdiv (Rminus (elem x [2; i; j]) 103.530%R) 57.375%R.
Proof.
  intros Hs.
  repeat split;
    rewrite (Normalize_call_elem Rminus Rdiv mean_R std_R x _ [i; j]);
    rewrite Hs; reflexivity.
Qed.

Lemma Normalize_call_per_channel_when_unbatched_witness :
  let x := {| shape := [3; 1; 1]; elem := fun _ => 0%R |} in
  elem (Normalize_call Rminus Rdiv mean_R std_R x) [1; 0; 0] =
    Rdiv (Rminus 0%R 116.280%R) 57.120%R.
Proof.
  cbv zeta.
  apply (proj1 (proj2 (@Normalize_call_per_channel_when_unbatched
                         {| shape := [3; 1; 1]; elem := fun _ => 0%R |}
                         1 1 0 0 eq_refl))).
Defined.

(** ** Nearest-neighbour resizing of the label grid *)


(** The source index is computed in single precision: of 2 rows resized to
    82, row 41 is taken from source row 0, where the exact quotient
    [41 * 2 / 82] is 1. *)
Example nearest_index_in_single_precision :
  nearest_index 2 82 41 = 0 /\ 41 * 2 / 82 = 1 /\
  map (nearest_index 2 82) [40; 41; 42] = [0; 0; 1] /\
  map (nearest_index 2 4) [0; 1; 2; 3] = [0; 0; 1; 1].
Proof. vm_compute. repeat split; reflexivity. Qed.



(** ** The legend: when it can be drawn, and what is drawn *)

Lemma legend_rows_short_names (names : list string) (rh rw : Z) (cs : list (list Z)) :
  forall i, cs <> [] -> length names < i + length cs ->
            legend_rows (Some names) rh rw i cs = inl IndexError.
Proof.
  induction cs as [|c cs IH]; intros i Hne Hlen; [congruence|]. simpl in Hlen.
  cbn [legend_rows class_name_at].
  destruct (nth_error names i) as [name|] eqn:Hn; [|reflexivity].
  assert (Hi : i < length names) by (apply nth_error_Some; congruence).
  cbn [rbind]. rewrite IH; [reflexivity | | lia].
  destruct cs; [simpl in Hlen; lia | discriminate].
Qed.

Lemma legend_rows_ops (names : list string) (rh : Z) (cs : list (list Z)) :
  forall pre,
    length pre + length cs <= length names ->
    legend_rows (Some names) rh 333 (length pre) cs =
    inr (flat_map (legend_row rh (pre ++ cs) names) (seq (length pre) (length cs))).
Proof.
  induction cs as [|c cs IH]; intros pre Hlen.
  - reflexivity.
  - simpl in Hlen.
    specialize (IH (pre ++ [c])). rewrite length_app in IH. simpl in IH.
    rewrite Nat.add_1_r, <- app_assoc in IH. simpl in IH.
    cbn [legend_rows class_name_at].
    destruct (nth_error names (length pre)) as [name|] eqn:Hname.
    2:{ apply nth_error_None in Hname. lia. }
    cbn [rbind]. rewrite IH by lia. cbn [rbind length seq flat_map app].
    unfold legend_row at 2. rewrite nth_middle.
    rewrite (nth_error_nth names (length pre) ""%string Hname).
    replace (Z.of_nat (length pre) * rh + 5 + 5)%Z
      with (Z.of_nat (length pre) * rh + 10)%Z by lia.
    replace ((Z.of_nat (length pre) + 1) * rh + 5 - 5)%Z
      with ((Z.of_nat (length pre) + 1) * rh)%Z by lia.
    reflexivity.
Qed.

(** X6.  [draw_legend] returns a legend exactly when there is at least one
    colour and a class name for every colour.  Otherwise it raises:
    [TypeError] without a colour list, [ZeroDivisionError] on an empty colour
    list, [TypeError] without a list of names, and [IndexError] when there
    are fewer names than colours. *)
Theorem draw_legend_outcome (s : Self) :
  match colors s with
  | None => draw_legend s = inl TypeError
  | Some [] => draw_legend s = inl ZeroDivisionError
  | Some (c :: cs) =>
      match classes s with
      | None => draw_legend s = inl TypeError
      | Some names =>
          if length (c :: cs) <=? length names
          then exists lg, draw_legend s = inr lg
          else draw_legend s = inl IndexError
      end
  end.
Proof.
  unfold draw_legend. destruct (colors s) as [[|c cs]|]; try reflexivity.
  cbn [length Nat.eqb].
  destruct (classes s) as [names|]; [|reflexivity].
  destruct (Nat.leb_spec (S (length cs)) (length names)) as [Hle|Hlt].
  - change (1000 / 3)%Z with 333%Z.
    rewrite (@legend_rows_ops names _ (c :: cs) []) by exact Hle.
    eexists. reflexivity.
  - rewrite legend_rows_short_names; [reflexivity | discriminate | simpl in *; lia].
Qed.

(** X7.  When the legend is drawn, its drawing calls are, class after class
    in index order, the filled rectangle in the colour of the class followed
    by the name of the same class in black, anchored at x = 363 and a third of
    the row pitch above the lower edge of the rectangle: two calls per
    class, and the names drawn are the first names of the list, in order. *)
Theorem legend_pairs_colors_with_names (s : Self) (cs : list (list Z))
        (names : list string) :
  colors s = Some cs -> classes s = Some names ->
  1 <= length cs -> length cs <= length names ->
  exists lg,
    draw_legend s = inr lg /\
    ops lg = flat_map (legend_row (Z.min 100 (1000 / Z.of_nat (length cs))) cs names)
                      (seq 0 (length cs)) /\
    length (ops lg) = 2 * length cs /\
    map fst (texts_of (ops lg)) = firstn (length cs) names.
Proof.
  intros Hc Hn Hpos Hlen. unfold draw_legend. rewrite Hc, Hn.
  destruct (Nat.eqb_spec (length cs) 0) as [H0|_]; [lia|].
  change (1000 / 3)%Z with 333%Z.
  rewrite (@legend_rows_ops names _ cs []) by exact Hlen.
  cbn [rbind app length]. eexists. split; [reflexivity|]. cbn [ops].
  split; [reflexivity|].
  generalize (Z.min 100 (1000 / Z.of_nat (length cs))). intros rh.
  split.
  - assert (Hgen : forall k i,
               length (flat_map (legend_row rh cs names) (seq i k)) = 2 * k).
    { induction k as [|k IH]; intros i; [reflexivity|].
      cbn [seq flat_map legend_row app length]. rewrite IH. lia. }
    apply Hgen.
  - assert (Hgen : forall k i, i + k <= length names ->
               map fst (texts_of (flat_map (legend_row rh cs names) (seq i k))) =
               firstn k (skipn i names)).
    { induction k as [|k IH]; intros i Hi; [reflexivity|].
      cbn [seq flat_map legend_row app texts_of map fst].
      fold (texts_of (flat_map (legend_row rh cs names) (seq (S i) k))).
      rewrite IH by lia.
      assert (Hsk : skipn i names = nth i names ""%string :: skipn (S i) names).
      { clear -Hi. revert i Hi. induction names as [|x l IHl]; intros i Hi.
        - simpl in Hi. lia.
        - destruct i as [|i]; [reflexivity|]. simpl. apply IHl. simpl in Hi. lia. }
      rewrite Hsk. reflexivity. }
    rewrite (Hgen (length cs) 0) by lia. reflexivity.
Qed.

Lemma legend_pairs_colors_with_names_witness :
  exists lg,
    draw_legend two_classes = inr lg /\
    ops lg = flat_map (legend_row (Z.min 100 (1000 / Z.of_nat 2))
                                  [[0; 0; 0]; [10; 20; 30; 255]]%Z
                                  ["bg"; "cat"]%string)
                      (seq 0 2) /\
    length (ops lg) = 2 * 2 /\
    map fst (texts_of (ops lg)) = firstn 2 ["bg"; "cat"]%string.
Proof.
  apply (@legend_pairs_colors_with_names two_classes
           [[0; 0; 0]; [10; 20; 30; 255]]%Z ["bg"; "cat"]%string);
    try reflexivity; simpl; lia.
Defined.

(** ** The steps of [run], whatever their outcome *)

Section StepOutcomes.

Context `{Host}.

Lemma run_world_cases img w :
  snd (run img w) = snd (load_config (snd (seed 10 w))) \/
  snd (run img w) = snd (build_model (snd (load_config (snd (seed 10 w))))) \/
  snd (run img w) =
    snd (inference img (snd (build_model (snd (load_config (snd (seed 10 w))))))).
Proof.
  rewrite run_unfold.
  destruct (load_config (snd (seed 10 w))) as [[e|[]] w1]; simpl; [auto|].
  destruct (build_model w1) as [[e|[]] w2]; simpl; auto.
Qed.

Lemma bind_snd_cases (A B : Type) (m : M A) (k : A -> M B) w :
  (exists e, fst (m w) = inl e /\ bind m k w = (inl e, snd (m w))) \/
  (exists a, fst (m w) = inr a /\ bind m k w = k a (snd (m w))).
Proof.
  unfold bind. destruct (m w) as [[e|a] w1]; simpl; [left | right]; eauto.
Qed.

(** The configuration step never forgets a configuration.  (It can forget
    the class names: a file whose [class_names] is null sets them to
    [None].) *)
Lemma load_config_keeps_loaded w :
  cfg (self w) <> None -> cfg (self (snd (load_config w))) <> None.
Proof.
  unfold load_config, bind, get_self, get_param, when, lift, set_cfg, set_classes,
    put_self, ret, getattr. cbn.
  destruct ((is_None (cfg (self w)) || update (param w))
            && negb (configFile (param w) =? "")%string); cbn; [|auto].
  destruct (yaml_load (configFile (param w))) as [e|c]; cbn; [auto|].
  destruct (class_names c); cbn; intros; discriminate.
Qed.

(** The network step either leaves the cache and the object counter alone
    or caches the object it has just numbered. *)
Lemma build_model_cases w :
  (model (self (snd (build_model w))) = model (self w) /\
   next_id (snd (build_model w)) = next_id w)
  \/
  (exists m, model (self (snd (build_model w))) = Some m /\ mid m = next_id w /\
             next_id (snd (build_model w)) = S (next_id w) /\
             cfg (self w) = Some (built_from m)).
Proof.
  run_build.
  destruct (cfg (self w)) as [c|]; [|left; auto].
  destruct (is_None (model (self w)) || update (param w)); [|left; auto].
  destruct (img_size c) as [size|]; cbn; [|left; auto].
  destruct (n_classes c) as [n|]; cbn; [|left; auto].
  destruct (ViT_seg c size n); cbn; [left; auto|].
  right.
  destruct cuda_is_available; cbn;
    destruct (isfile (modelFile (param w))); cbn;
    try match goal with
        | |- context [load_state_dict ?m ?p] => destruct (load_state_dict m p)
        end; cbn; eexists; repeat split; reflexivity.
Qed.

Lemma append_color_extends w l :
  colors (self w) = Some l ->
  exists c, colors (self (snd (append_color w))) = Some (l ++ [c]).
Proof.
  intros Hl. unfold append_color, bind, randint, get_self, set_colors, put_self.
  cbn. rewrite Hl. cbn. eexists. reflexivity.
Qed.

Lemma repeat_append_color_extends k :
  forall w l, colors (self w) = Some l ->
              exists l', colors (self (snd (repeatM k append_color w))) = Some (l ++ l').
Proof.
  induction k as [|k IH]; intros w l Hl.
  - exists []. rewrite app_nil_r. exact Hl.
  - cbn [repeatM]. destruct (append_color_extends w Hl) as (c & Hc).
    destruct (bind_snd_cases append_color (fun _ => repeatM k append_color) w)
      as [(e & _ & Hb) | (a & _ & Hb)]; rewrite Hb; cbn [snd].
    + exists [c]. exact Hc.
    + destruct (IH _ _ Hc) as (l' & Hl'). exists (c :: l').
      rewrite Hl', <- app_assoc. reflexivity.
Qed.

(** The colour block either leaves the colour map alone or leaves a map that
    starts with black, and it needs class names for that. *)
Lemma build_colors_cases w :
  colors (self (snd (build_colors w))) = colors (self w) \/
  (exists rest, colors (self (snd (build_colors w))) = Some ([0; 0; 0]%Z :: rest)) /\
  classes (self w) <> None.
Proof.
  unfold build_colors.
  rewrite (@bind_inr _ _ _ get_self _ w (self w) w eq_refl). cbv beta.
  rewrite (@bind_inr _ _ _ get_param _ w (param w) w eq_refl). cbv beta.
  destruct (is_None (colors (self w)) || update (param w)); cbn [when]; [|left; reflexivity].
  destruct (classes (self w)) as [names|]; [|left; reflexivity].
  right. split; [|discriminate].
  set (w0 := snd (set_colors (Some [[0; 0; 0]%Z]) w)).
  rewrite (@bind_inr _ _ _ (set_colors (Some [[0; 0; 0]%Z])) _ w tt w0 eq_refl).
  destruct (@repeat_append_color_extends (length names - 1) w0 [[0; 0; 0]%Z] eq_refl)
    as (l' & Hl').
  match goal with
  | |- context [bind ?m ?k w0] =>
      destruct (bind_snd_cases m k w0) as [(e & _ & Hb) | (a & _ & Hb)]; rewrite Hb
  end; cbn [snd].
  - exists l'. exact Hl'.
  - exists l'. unfold bind, get_self, put_outputs. cbn. exact Hl'.
Qed.

Lemma inference_colors_cases img w :
  colors (self (snd (inference img w))) = colors (self w) \/
  (exists rest, colors (self (snd (inference img w))) = Some ([0; 0; 0]%Z :: rest)) /\
  model (self w) <> None.
Proof.
  destruct (model (self w)) as [m|] eqn:Hm;
    [destruct img as [i|]|];
    try (rewrite inference_skip by auto; left; reflexivity).
  rewrite (inference_run i w Hm).
  destruct (predict_frame m i) as (Ps & _). specialize (Ps w).
  destruct (publish_frame i) as (Us & _).
  destruct (bind_snd_cases (predict m i) (fun _ => bind build_colors (fun _ => publish i)) w)
    as [(e & _ & Hb) | (a & _ & Hb)]; rewrite Hb; cbn [snd].
  { left. rewrite Ps. reflexivity. }
  destruct (bind_snd_cases build_colors (fun _ => publish i) (snd (predict m i w)))
    as [(e & _ & Hc) | (a' & _ & Hc)]; rewrite Hc; cbn [snd];
    try rewrite (Us _);
    destruct (build_colors_cases (snd (predict m i w))) as [Hk | ((rest & Hr) & _)];
    try rewrite Ps in Hk;
    first [ left; assumption
          | right; split; [exists rest; assumption | discriminate] ].
Qed.

End StepOutcomes.

(** ** Runs that have nothing to do *)

Section IdleRuns.

Context `{Host}.

(** X8.  On a process that has no configuration, no network and no
    configuration file named (a newly created process with default
    parameters is one), a run completes and changes nothing but the state of
    the random generator, with or without an input image. *)
Theorem run_on_unconfigured_process_does_nothing img w :
  cfg (self w) = None -> model (self w) = None ->
  configFile (param w) = ""%string ->
  fst (run img w) = inr tt /\
  self (snd (run img w)) = self w /\
  param (snd (run img w)) = param w /\
  outputs (snd (run img w)) = outputs w /\
  next_id (snd (run img w)) = next_id w /\
  forward_calls (snd (run img w)) = forward_calls w /\
  rng (snd (run img w)) = random_seed 10.
Proof.
  intros Hc Hm Hf. rewrite run_unfold.
  rewrite load_config_unnamed by exact Hf.
  rewrite build_model_no_config by exact Hc.
  rewrite inference_skip by (left; exact Hm).
  repeat split.
Qed.

(** X9.  A run without input image never writes an output, never starts a
    forward pass, and leaves the colour map and the update flag as they
    were, whatever it loads or builds. *)
Theorem run_without_image_publishes_nothing w :
  outputs (snd (run None w)) = outputs w /\
  forward_calls (snd (run None w)) = forward_calls w /\
  colors (self (snd (run None w))) = colors (self w) /\
  param (snd (run None w)) = param w.
Proof.
  destruct load_config_frame as (_ & Lc & Lp & Lo & _ & _ & Lf).
  destruct build_model_frame as (_ & _ & Bc & Bp & Bo & _ & Bf).
  specialize (Lc (snd (seed 10 w))). specialize (Lp (snd (seed 10 w))).
  specialize (Lo (snd (seed 10 w))). specialize (Lf (snd (seed 10 w))).
  specialize (Bc (snd (load_config (snd (seed 10 w))))).
  specialize (Bp (snd (load_config (snd (seed 10 w))))).
  specialize (Bo (snd (load_config (snd (seed 10 w))))).
  specialize (Bf (snd (load_config (snd (seed 10 w))))).
  destruct (run_world_cases None w) as [Hr | [Hr | Hr]]; rewrite Hr;
    try rewrite inference_skip by (right; reflexivity); cbn [snd];
    repeat split; rewrite ?Bc, ?Bp, ?Bo, ?Bf, ?Lc, ?Lp, ?Lo, ?Lf; reflexivity.
Qed.

End IdleRuns.

Lemma run_on_unconfigured_process_does_nothing_witness :
  let w := @TransUNetProcess_init example_host None 0%Z in
  let img := Some (const_image [2; 2; 3] 9) in
  fst (@run example_host img w) = inr tt /\
  self (snd (@run example_host img w)) = self w /\
  param (snd (@run example_host img w)) = param w /\
  outputs (snd (@run example_host img w)) = outputs w /\
  next_id (snd (@run example_host img w)) = next_id w /\
  forward_calls (snd (@run example_host img w)) = forward_calls w /\
  rng (snd (@run example_host img w)) = @random_seed example_host 10.
Proof.
  cbv zeta.
  apply (@run_on_unconfigured_process_does_nothing example_host
           (Some (const_image [2; 2; 3] 9))
           (@TransUNetProcess_init example_host None 0%Z)); reflexivity.
Defined.

(** ** What a run never does *)

Section RunBounds.

Context `{Host}.

Lemma inference_calls_cases img w :
  forward_calls (snd (inference img w)) = forward_calls w \/
  forward_calls (snd (inference img w)) = S (forward_calls w).
Proof.
  destruct (model (self w)) as [m|] eqn:Hm;
    [destruct img as [i|]|];
    try (rewrite inference_skip by auto; left; reflexivity).
  rewrite (inference_run i w Hm).
  rewrite (@bind_calls _ _ (predict m i) (fun _ => bind build_colors (fun _ => publish i)) w).
  - destruct (predict_calls m i w) as (Perr & Pok).
    destruct (preprocess (cfg (self w)) i) as [e|hwx].
    + left. apply (Perr e eq_refl).
    + right. apply (Pok hwx eq_refl).
  - intros _. unfold build_colors, append_color, publish. frame.
Qed.

Lemma inference_update_cases img w :
  update (param (snd (inference img w))) = update (param w) \/
  update (param (snd (inference img w))) = false.
Proof.
  destruct (model (self w)) as [m|] eqn:Hm;
    [destruct img as [i|]|];
    try (rewrite inference_skip by auto; left; reflexivity).
  destruct (inference_clears i w Hm) as [(_ & Hu) | (e & _ & Hu)]; auto.
Qed.

(** X10.  A run starts at most one forward pass and constructs at most one
    network object. *)
Theorem run_forwards_and_constructs_at_most_once img w :
  forward_calls w <= forward_calls (snd (run img w)) <= S (forward_calls w) /\
  next_id w <= next_id (snd (run img w)) <= S (next_id w).
Proof.
  destruct load_config_frame as (_ & _ & _ & _ & _ & Ln & Lf).
  destruct build_model_frame as (_ & _ & _ & _ & _ & _ & Bf).
  destruct (inference_frame img) as (_ & _ & _ & _ & _ & In).
  specialize (Ln (snd (seed 10 w))). specialize (Lf (snd (seed 10 w))).
  change (next_id (snd (seed 10 w))) with (next_id w) in Ln.
  change (forward_calls (snd (seed 10 w))) with (forward_calls w) in Lf.
  set (w1 := snd (load_config (snd (seed 10 w)))) in *.
  specialize (Bf w1). specialize (In (snd (build_model w1))).
  pose proof (inference_calls_cases img (snd (build_model w1))) as Hc.
  assert (Hb : next_id (snd (build_model w1)) = next_id w1 \/
               next_id (snd (build_model w1)) = S (next_id w1)).
  { destruct (build_model_cases w1) as [(_ & Hn) | (m & _ & _ & Hn & _)]; auto. }
  destruct (run_world_cases img w) as [Hr | [Hr | Hr]]; rewrite Hr; fold w1; lia.
Qed.

(** X11.  A run never raises the update flag and never changes the two file
    names of the parameters: the flag can only go from set to cleared. *)
Theorem run_never_raises_the_flag img w :
  (update (param (snd (run img w))) = true -> update (param w) = true) /\
  configFile (param (snd (run img w))) = configFile (param w) /\
  modelFile (param (snd (run img w))) = modelFile (param w).
Proof.
  destruct load_config_frame as (_ & _ & Lp & _).
  destruct build_model_frame as (_ & _ & _ & Bp & _).
  destruct (inference_frame img) as (_ & _ & _ & Ic & Im & _).
  specialize (Lp (snd (seed 10 w))).
  change (param (snd (seed 10 w))) with (param w) in Lp.
  set (w1 := snd (load_config (snd (seed 10 w)))) in *.
  specialize (Bp w1). specialize (Ic (snd (build_model w1))).
  specialize (Im (snd (build_model w1))). cbv beta in Ic, Im.
  pose proof (inference_update_cases img (snd (build_model w1))) as Hu.
  destruct (run_world_cases img w) as [Hr | [Hr | Hr]]; rewrite Hr; fold w1;
    repeat split; try congruence.
  destruct Hu as [Hu | Hu]; rewrite Hu; [congruence | discriminate].
Qed.

Lemma inference_keeps_colors img w cs :
  colors (self w) = Some cs -> update (param w) = false ->
  colors (self (snd (inference img w))) = Some cs.
Proof.
  intros Hc Hu.
  destruct (model (self w)) as [m|] eqn:Hm;
    [destruct img as [i|]|];
    try (rewrite inference_skip by auto; exact Hc).
  rewrite (inference_run i w Hm).
  destruct (predict_frame m i) as (Ps & Pp & _). specialize (Ps w). specialize (Pp w).
  destruct (publish_frame i) as (Us & _).
  destruct (bind_snd_cases (predict m i) (fun _ => bind build_colors (fun _ => publish i)) w)
    as [(e & _ & Hb) | (a & _ & Hb)]; rewrite Hb; cbn [snd].
  { rewrite Ps. exact Hc. }
  unfold bind at 1.
  rewrite (@build_colors_keep _ (snd (predict m i w)) cs)
    by (rewrite ?Ps, ?Pp; assumption).
  rewrite (Us _), Ps. exact Hc.
Qed.

(** X12.  Without the update flag a cached colour map is kept by a run,
    whatever the image and whether or not the run completes: the colours of
    the classes are stable from run to run. *)
Theorem colors_stable_without_update img w cs :
  colors (self w) = Some cs -> update (param w) = false ->
  colors (self (snd (run img w))) = Some cs.
Proof.
  intros Hc Hu.
  destruct load_config_frame as (_ & Lc & Lp & _).
  destruct build_model_frame as (_ & _ & Bc & Bp & _).
  specialize (Lc (snd (seed 10 w))). specialize (Lp (snd (seed 10 w))).
  cbv beta in Lc.
  change (colors (self (snd (seed 10 w)))) with (colors (self w)) in Lc.
  change (param (snd (seed 10 w))) with (param w) in Lp.
  set (w1 := snd (load_config (snd (seed 10 w)))) in *.
  specialize (Bc w1). specialize (Bp w1). cbv beta in Bc.
  destruct (run_world_cases img w) as [Hr | [Hr | Hr]]; rewrite Hr; fold w1;
    try congruence.
  apply inference_keeps_colors; congruence.
Qed.

End RunBounds.

Lemma colors_stable_without_update_witness :
  let w := snd (@run example_host (Some (const_image [2; 2; 3] 0)) warm) in
  colors (self w) = Some (@seeded_color_map example_host 3) /\
  update (param w) = false /\
  colors (self (snd (@run example_host (Some (const_image [4; 1; 3] 50)) w))) =
  Some (@seeded_color_map example_host 3).
Proof.
  cbv zeta. split; [reflexivity|]. split; [reflexivity|].
  apply (@colors_stable_without_update example_host); reflexivity.
Defined.

(** ** Invariants of the cache *)

Section CacheInvariants.

Context `{Host}.

Lemma cache_invariant_step (w w' : World) :
  cache_invariant w ->
  (model (self w') = model (self w) /\ next_id w <= next_id w' \/
   exists m, model (self w') = Some m /\ mid m = next_id w /\
             next_id w' = S (next_id w) /\ cfg (self w) <> None) ->
  (cfg (self w) <> None -> cfg (self w') <> None) ->
  (colors (self w') = colors (self w) \/
   (exists rest, colors (self w') = Some ([0; 0; 0]%Z :: rest)) /\
   model (self w) <> None) ->
  cache_invariant w'.
Proof.
  intros (Im & Ic) Hmodel Hcfg Hcol.
  assert (Hkeep : model (self w) <> None -> model (self w') <> None).
  { intros Hm. destruct Hmodel as [(Heq & _) | (m' & Hm' & _)].
    - rewrite Heq. exact Hm.
    - rewrite Hm'. discriminate. }
  split.
  - intros m Hm. destruct Hmodel as [(Heq & Hn) | (m' & Hm' & Hid & Hn & Hc)].
    + rewrite Heq in Hm. destruct (Im m Hm) as (Hc & Hlt). split; [auto | lia].
    + rewrite Hm' in Hm. injection Hm as <-. split; [auto | lia].
  - intros cs Hcs. destruct Hcol as [Heq | ((rest & Hr) & Hm)].
    + rewrite Heq in Hcs. destruct (Ic cs Hcs) as (Hb & Hm). auto.
    + rewrite Hr in Hcs. injection Hcs as <-. split; [eauto | auto].
Qed.

Lemma cache_invariant_run img w :
  cache_invariant w -> cache_invariant (snd (run img w)).
Proof.
  intros Hinv.
  assert (H0 : cache_invariant (snd (seed 10 w))) by exact Hinv.
  destruct load_config_frame as (Lm & Lc & _ & _ & _ & Ln & _).
  destruct build_model_frame as (Bc & _ & Bco & _).
  destruct (inference_frame img) as (Im & Ic & _ & _ & _ & In).
  set (w0 := snd (seed 10 w)) in *.
  assert (H1 : cache_invariant (snd (load_config w0))).
  { apply (@cache_invariant_step w0 _ H0).
    - left. rewrite (Lm w0), (Ln w0). auto.
    - apply load_config_keeps_loaded.
    - left. apply (Lc w0). }
  set (w1 := snd (load_config w0)) in *.
  assert (H2 : cache_invariant (snd (build_model w1))).
  { apply (@cache_invariant_step w1 _ H1).
    - destruct (build_model_cases w1) as [(Hm & Hn) | (m & Hm & Hid & Hn & Hc)].
      + left. rewrite Hm, Hn. auto.
      + right. exists m. rewrite Hc. repeat split; auto. discriminate.
    - rewrite (Bc w1). auto.
    - left. apply (Bco w1). }
  set (w2 := snd (build_model w1)) in *.
  assert (H3 : cache_invariant (snd (inference img w2))).
  { apply (@cache_invariant_step w2 _ H2).
    - left. rewrite (Im w2), (In w2). auto.
    - rewrite (Ic w2). auto.
    - apply inference_colors_cases. }
  destruct (run_world_cases img w) as [Hr | [Hr | Hr]]; rewrite Hr; assumption.
Qed.

(** X13.  In every state that a process created on a given parameter object
    can reach by runs and parameter changes, a cached network comes with a
    loaded configuration and carries a number below the object counter (so a
    network constructed later is another object), and a cached colour map is
    non-empty, starts with black and comes with a cached network.  (It need
    not come with class names: a run can replace them by [None] and then
    fail before it touches the colour map.) *)
Theorem reachable_states_keep_cache_invariant w :
  reachable w -> cache_invariant w.
Proof.
  induction 1 as [p g | img w _ IH | p w _ IH].
  - split; intros x Hx; discriminate Hx.
  - apply cache_invariant_run. exact IH.
  - exact IH.
Qed.

(** X14.  A completed run keeps the cache coherent: if the cached network,
    when there was one, had been built from the cached configuration, then
    after the run the cached network has been built from the configuration
    that is cached then. *)
Theorem completed_run_keeps_cache_coherent img w :
  coherent w -> fst (run img w) = inr tt -> coherent (snd (run img w)).
Proof.
  intros Hcoh Hok m' Hm'.
  destruct (run_success_inv img w Hok) as (w1 & w2 & Hl & Hb & Hr).
  destruct load_config_frame as (Lm & _ & Lp & _).
  destruct build_model_frame as (Bc & _).
  destruct (inference_frame img) as (Im & Ic & _).
  specialize (Lm (snd (seed 10 w))). specialize (Lp (snd (seed 10 w))).
  rewrite Hl in Lm, Lp. cbn [snd] in Lm, Lp. cbv beta in Lm.
  change (model (self (snd (seed 10 w)))) with (model (self w)) in Lm.
  change (param (snd (seed 10 w))) with (param w) in Lp.
  specialize (Bc w1). rewrite Hb in Bc. cbn [snd] in Bc. cbv beta in Bc.
  rewrite Hr in Hm' |- *. rewrite (Im w2) in Hm'. rewrite (Ic w2), Bc.
  destruct (build_model_cases w1) as [(Hm & Hn) | (m & Hm & _ & _ & Hc)];
    rewrite Hb in *; cbn [snd] in *.
  - rewrite Hm, Lm in Hm'. specialize (Hcoh m' Hm').
    destruct (update (param w)) eqn:Hu.
    + exfalso.
      pose proof (load_config_keeps_loaded (snd (seed 10 w))) as Hk.
      rewrite Hl in Hk. cbn [snd] in Hk.
      destruct (cfg (self w1)) as [c|] eqn:Hc1.
      2:{ apply Hk; [|reflexivity].
          change (cfg (self (snd (seed 10 w)))) with (cfg (self w)).
          rewrite Hcoh. discriminate. }
      destruct (@build_model_rebuilds _ w1 c Hc1) as (m & _ & _ & _ & _ & Hn').
      * rewrite Lp, Hu. apply orb_true_r.
      * rewrite Hb. reflexivity.
      * rewrite Hb in Hn'. cbn [snd] in Hn'. lia.
    + assert (Hskip : load_config (snd (seed 10 w)) = (inr tt, snd (seed 10 w))).
      { apply (@load_config_skip _ (snd (seed 10 w)) (built_from m')); assumption. }
      rewrite Hskip in Hl. injection Hl as <-. exact Hcoh.
  - rewrite Hm in Hm'. injection Hm' as <-. exact Hc.
Qed.

End CacheInvariants.

Lemma reachable_states_keep_cache_invariant_witness :
  let w := snd (@run example_host (Some (const_image [2; 2; 3] 0))
                  (set_params (params "b.yaml" "" true) warm)) in
  reachable w /\ cache_invariant w.
Proof.
  cbv zeta.
  assert (Hr : @reachable example_host
                 (snd (@run example_host (Some (const_image [2; 2; 3] 0))
                         (set_params (params "b.yaml" "" true) warm)))).
  { apply (@reach_run example_host (Some (const_image [2; 2; 3] 0))).
    apply (@reach_host example_host (params "b.yaml" "" true)).
    apply (@reach_run example_host None).
    apply (@reach_init example_host (params "a.yaml" "" false) 0%Z). }
  split; [exact Hr|].
  apply (@reachable_states_keep_cache_invariant example_host _ Hr).
Defined.

Lemma completed_run_keeps_cache_coherent_witness :
  let w := set_params (params "b.yaml" "" true) warm in
  coherent w /\ fst (@run example_host None w) = inr tt /\
  coherent (snd (@run example_host None w)).
Proof.
  cbv zeta.
  assert (Hc : @coherent example_host (set_params (params "b.yaml" "" true) warm)).
  { intros m Hm. vm_compute in Hm. injection Hm as <-. reflexivity. }
  split; [exact Hc|]. split; [reflexivity|].
  apply (@completed_run_keeps_cache_coherent example_host None _ Hc). reflexivity.
Defined.

(** ** The label image a run publishes *)

Section PublishedLabels.

Context `{Host}.

Lemma predict_infer m img w :
  (forall e, infer m (cfg (self w)) img = inl e ->
             fst (predict m img w) = inl e /\
             self (snd (predict m img w)) = self w /\
             param (snd (predict m img w)) = param w /\
             outputs (snd (predict m img w)) = outputs w) /\
  (forall lbl, infer m (cfg (self w)) img = inr lbl ->
               fst (predict m img w) = inr tt /\
               mask_image (outputs (snd (predict m img w))) = Some lbl).
Proof.
  unfold infer, predict, bind, get_self, lift, call_forward, put_outputs. cbn.
  destruct (preprocess (cfg (self w)) img) as [e0|hwx]; cbn.
  { split; [intros e He; injection He as <-; auto | discriminate]. }
  destruct (forward m (snd hwx)) as [e0|pred]; cbn.
  { split; [intros e He; injection He as <-; auto | discriminate]. }
  destruct (decode (fst (fst hwx)) (snd (fst hwx)) pred) as [e0|lbl0]; cbn.
  { split; [intros e He; injection He as <-; auto | discriminate]. }
  split; [discriminate | intros lbl He; injection He as <-; auto].
Qed.

(** X15.  With a network cached and the update flag down, the label image a
    run hands to output 0 is the result of [infer] on the cached network and
    configuration, also when a later step of the run raises.  When [infer]
    raises, the run raises the same exception and leaves the outputs, the
    attributes of the process and the parameters as they were. *)
Theorem run_publishes_the_result_of_infer img w m c :
  model (self w) = Some m -> cfg (self w) = Some c -> update (param w) = false ->
  (forall lbl, infer m (Some c) img = inr lbl ->
               mask_image (outputs (snd (run (Some img) w))) = Some lbl)
  /\
  (forall e, infer m (Some c) img = inl e ->
             fst (run (Some img) w) = inl e /\
             outputs (snd (run (Some img) w)) = outputs w /\
             self (snd (run (Some img) w)) = self w /\
             param (snd (run (Some img) w)) = param w).
Proof.
  intros Hm Hc Hu. rewrite (@run_on_cached _ w m c img Hm Hc Hu).
  destruct (predict_infer m img (snd (seed 10 w))) as (Perr & Pok).
  change (cfg (self (snd (seed 10 w)))) with (cfg (self w)) in Perr, Pok.
  rewrite Hc in Perr, Pok.
  destruct (bind_snd_cases (predict m img)
              (fun _ => bind build_colors (fun _ => publish img)) (snd (seed 10 w)))
    as [(e0 & He0 & Hb) | (a & Ha & Hb)]; rewrite Hb; split.
  - intros lbl Hi. destruct (Pok lbl Hi) as (Hf & _). congruence.
  - intros e Hi. destruct (Perr e Hi) as (Hf & Hs & Hp & Ho).
    cbn [fst snd]. rewrite Hs, Hp, Ho. repeat split. congruence.
  - intros lbl Hi. destruct (Pok lbl Hi) as (_ & Hmask).
    assert (Hrest : preserves (fun w => mask_image (outputs w))
                              (bind build_colors (fun _ => publish img))).
    { unfold build_colors, append_color, publish. frame. }
    rewrite (Hrest _). exact Hmask.
  - intros e Hi. destruct (Perr e Hi) as (Hf & _). congruence.
Qed.

End PublishedLabels.

Lemma run_publishes_the_result_of_infer_witness :
  exists lbl,
    infer (H := example_host) model_a (Some cfg_a) (const_image [2; 3; 3] 7) = inr lbl /\
    mask_image (outputs (snd (@run example_host (Some (const_image [2; 3; 3] 7)) warm))) =
    Some lbl.
Proof.
  eexists. split; [reflexivity|].
  apply (proj1 (@run_publishes_the_result_of_infer example_host
                  (const_image [2; 3; 3] 7) warm model_a cfg_a
                  eq_refl eq_refl eq_refl)).
  reflexivity.
Defined.

(** ** The shape of the colour map *)

Section ColorMapShape.

Context `{Host}.

(** X16.  After a completed run that rebuilt the colour map, the map has one
    entry per class name, and one entry when there is no class name; entry 0
    has three components, and every other entry has four, the last one being
    255. *)
Theorem rebuilt_color_map_shape i w names :
  fst (run (Some i) w) = inr tt ->
  model (self (snd (run (Some i) w))) <> None ->
  is_None (colors (self w)) || update (param w) = true ->
  classes (self (snd (run (Some i) w))) = Some names ->
  exists cm,
    colors (self (snd (run (Some i) w))) = Some cm /\
    length cm = Nat.max 1 (length names) /\
    length (nth 0 cm []) = 3 /\
    forall k, 1 <= k < length names ->
              length (nth k cm []) = 4 /\ nth 3 (nth k cm []) 0%Z = 255%Z.
Proof.
  intros Hok Hm Hg Hn. exists (seeded_color_map (length names)).
  destruct (seeded_color_map_entries (length names)) as (Hlen & H0 & Hk).
  split; [apply run_rebuilds_colors; assumption|].
  split; [rewrite Hlen; lia|]. split; [rewrite H0; reflexivity|].
  intros k Hr. rewrite (Hk k Hr). split; reflexivity.
Qed.

End ColorMapShape.

Lemma rebuilt_color_map_shape_witness :
  let run1 := @run example_host (Some (const_image [2; 2; 3] 0))
                   (fresh example_host (params "a.yaml" "" false)) in
  exists cm,
    colors (self (snd run1)) = Some cm /\
    length cm = Nat.max 1 3 /\
    length (nth 0 cm []) = 3 /\
    forall k, 1 <= k < 3 -> length (nth k cm []) = 4 /\ nth 3 (nth k cm []) 0%Z = 255%Z.
Proof.
  cbv zeta.
  apply (@rebuilt_color_map_shape example_host (const_image [2; 2; 3] 0)
           (fresh example_host (params "a.yaml" "" false))
           ["bg"; "cat"; "dog"]%string);
    try reflexivity.
  vm_compute. discriminate.
Defined.

(** ** Failures of the configuration step and results of the network step *)

Section StepResults.

Context `{Host}.

(** X17.  When the configuration step raises, either the file could not be
    read and the attributes of the process are as before, or the file was
    read but holds no class names: then [AttributeError] is raised after the
    new configuration has replaced the cached one, while the class names
    keep their previous value. *)
Theorem failed_load_config w e :
  fst (load_config w) = inl e ->
  (yaml_load (configFile (param w)) = inl e /\
   self (snd (load_config w)) = self w)
  \/
  (exists c, yaml_load (configFile (param w)) = inr c /\ class_names c = None /\
             e = AttributeError /\
             cfg (self (snd (load_config w))) = Some c /\
             classes (self (snd (load_config w))) = classes (self w) /\
             model (self (snd (load_config w))) = model (self w)).
Proof.
  unfold load_config, bind, get_self, get_param, when, lift, set_cfg, set_classes,
    put_self, ret, getattr. cbn.
  destruct ((is_None (cfg (self w)) || update (param w))
            && negb (configFile (param w) =? "")%string); cbn; [|discriminate].
  destruct (yaml_load (configFile (param w))) as [e0|c]; cbn.
  { intros He. injection He as <-. left. auto. }
  destruct (class_names c) eqn:Hn; cbn; [discriminate|].
  intros He. injection He as <-. right. exists c. repeat split. exact Hn.
Qed.

(** X18.  A network step that goes past its guard and completes caches a
    network with the next object number, built from the cached
    configuration with its image size and class count, moved to the
    accelerator exactly when one is available, carrying the weights of the
    weight file exactly when that file exists (and its initial weights
    otherwise), and switched to inference mode. *)
Theorem build_model_result w c :
  cfg (self w) = Some c ->
  is_None (model (self w)) || update (param w) = true ->
  fst (build_model w) = inr tt ->
  exists size n,
    img_size c = Some size /\ n_classes c = Some n /\
    model (self (snd (build_model w))) =
    Some {| mid := next_id w; built_from := c;
            net_img_size := size; net_num_classes := n;
            on_device := if cuda_is_available then CUDA else CPU;
            weights := if isfile (modelFile (param w))
                       then Loaded (modelFile (param w)) else RandomInit;
            training := false |}.
Proof.
  intros Hc Hg. run_build. rewrite Hc, Hg.
  destruct (img_size c) as [size|]; cbn; [|discriminate].
  destruct (n_classes c) as [n|]; cbn; [|discriminate].
  destruct (ViT_seg c size n); cbn; [discriminate|].
  destruct cuda_is_available; cbn;
    destruct (isfile (modelFile (param w))); cbn;
    try match goal with
        | |- context [load_state_dict ?m ?p] => destruct (load_state_dict m p)
        end; cbn; try discriminate;
    intros _; exists size, n; repeat split; reflexivity.
Qed.

End StepResults.

Lemma failed_load_config_witness :
  let w := fresh example_host (params "missing.yaml" "" false) in
  fst (@load_config example_host w) = inl FileNotFoundError /\
  ((@yaml_load example_host (configFile (param w)) = inl FileNotFoundError /\
    self (snd (@load_config example_host w)) = self w)
   \/
   (exists c, @yaml_load example_host (configFile (param w)) = inr c /\
              class_names c = None /\ FileNotFoundError = AttributeError /\
              cfg (self (snd (@load_config example_host w))) = Some c /\
              classes (self (snd (@load_config example_host w))) = classes (self w) /\
              model (self (snd (@load_config example_host w))) = model (self w))).
Proof.
  cbv zeta. split; [reflexivity|].
  apply (@failed_load_config example_host
           (fresh example_host (params "missing.yaml" "" false)) FileNotFoundError).
  reflexivity.
Defined.

Lemma build_model_result_witness :
  let w := snd (@load_config example_host
                  (fresh example_host (params "a.yaml" "none.pth" false))) in
  exists size n,
    img_size cfg_a = Some size /\ n_classes cfg_a = Some n /\
    model (self (snd (@build_model example_host w))) =
    Some {| mid := next_id w; built_from := cfg_a;
            net_img_size := size; net_num_classes := n;
            on_device := if @cuda_is_available example_host then CUDA else CPU;
            weights := if @isfile example_host (modelFile (param w))
                       then Loaded (modelFile (param w)) else RandomInit;
            training := false |}.
Proof.
  cbv zeta.
  apply (@build_model_result example_host
           (snd (@load_config example_host
                   (fresh example_host (params "a.yaml" "none.pth" false))))
           cfg_a); reflexivity.
Defined.

(** ** A configuration without class names *)

Section NoClassNames.

Context `{Host}.

Lemma publish_fails_without_names i w c0 :
  colors (self w) = Some [c0] -> classes (self w) = Some [] ->
  fst (publish i w) = inl IndexError /\
  self (snd (publish i w)) = self w /\
  param (snd (publish i w)) = param w /\
  mask_image (outputs (snd (publish i w))) = mask_image (outputs w).
Proof.
  intros Hc Hn. unfold publish, bind, put_outputs, get_self, lift, draw_legend.
  cbn. rewrite Hc, Hn. cbn. auto.
Qed.

(** X19.  When the list of class names is empty and no colour map is cached,
    a run on an image that [infer] can label raises [IndexError] in the
    legend step: by then the label image has been handed to output 0 and the
    colour map holds its single black entry, and the update flag is left as
    it was. *)
Theorem run_without_class_names_fails_in_the_legend img w m c lbl :
  model (self w) = Some m -> cfg (self w) = Some c -> update (param w) = false ->
  colors (self w) = None -> classes (self w) = Some [] ->
  infer m (Some c) img = inr lbl ->
  fst (run (Some img) w) = inl IndexError /\
  mask_image (outputs (snd (run (Some img) w))) = Some lbl /\
  colors (self (snd (run (Some img) w))) = Some [[0; 0; 0]%Z] /\
  param (snd (run (Some img) w)) = param w.
Proof.
  intros Hm Hc Hu Hcol Hn Hi. rewrite (@run_on_cached _ w m c img Hm Hc Hu).
  set (w0 := snd (seed 10 w)).
  destruct (predict_infer m img w0) as (_ & Pok).
  change (cfg (self w0)) with (cfg (self w)) in Pok. rewrite Hc in Pok.
  destruct (Pok lbl Hi) as (Hf & Hmask).
  destruct (predict_frame m img) as (Ps & Pp & Pr & _).
  specialize (Ps w0). specialize (Pp w0). specialize (Pr w0).
  destruct (predict m img w0) as [[e|[]] w3] eqn:Hp; cbn [fst snd] in *;
    [discriminate|].
  rewrite (@bind_inr _ _ _ _ _ _ _ _ Hp).
  destruct (@build_colors_rebuild _ w3 []) as (Hbf & Hbc).
  { rewrite Ps. exact Hn. }
  { rewrite Ps. change (colors (self w0)) with (colors (self w)). rewrite Hcol.
    reflexivity. }
  { rewrite Pr. reflexivity. }
  assert (Hbo : mask_image (outputs (snd (build_colors w3))) = mask_image (outputs w3) /\
                classes (self (snd (build_colors w3))) = classes (self w3) /\
                param (snd (build_colors w3)) = param w3).
  { repeat split.
    - assert (Hp1 : preserves (fun w => mask_image (outputs w)) build_colors)
        by (unfold build_colors, append_color; frame).
      apply Hp1.
    - destruct build_colors_frame as (_ & _ & Hcl & _). apply Hcl.
    - assert (Hp1 : preserves param build_colors)
        by (unfold build_colors, append_color; frame).
      apply Hp1. }
  destruct Hbo as (Hbm & Hbcl & Hbp).
  destruct (build_colors w3) as [[e|[]] w4] eqn:Hb; cbn [fst snd] in *;
    [discriminate|].
  rewrite (@bind_inr _ _ _ _ _ _ _ _ Hb).
  destruct (@publish_fails_without_names img w4 [0; 0; 0]%Z) as (Hpf & Hps & Hpp & Hpm).
  { exact Hbc. }
  { rewrite Hbcl, Ps. exact Hn. }
  repeat split.
  - exact Hpf.
  - rewrite Hpm, Hbm. exact Hmask.
  - rewrite Hps. exact Hbc.
  - rewrite Hpp, Hbp, Pp. reflexivity.
Qed.

End NoClassNames.

Lemma run_without_class_names_fails_in_the_legend_witness :
  let w := snd (@run nameless_host None
                  (fresh nameless_host (params "empty.yaml" "" false))) in
  let img := const_image [2; 2; 3] 0 in
  exists lbl,
    infer (H := nameless_host) (eval_mode {| mid := 0; built_from := cfg_nameless;
                                             net_img_size := 4; net_num_classes := 1;
                                             on_device := CPU; weights := RandomInit;
                                             training := true |})
          (Some cfg_nameless) img = inr lbl /\
    fst (@run nameless_host (Some img) w) = inl IndexError /\
    mask_image (outputs (snd (@run nameless_host (Some img) w))) = Some lbl /\
    colors (self (snd (@run nameless_host (Some img) w))) = Some [[0; 0; 0]%Z] /\
    param (snd (@run nameless_host (Some img) w)) = param w.
Proof.
  cbv zeta. eexists. split; [reflexivity|].
  apply (@run_without_class_names_fails_in_the_legend nameless_host
           (const_image [2; 2; 3] 0)
           (snd (@run nameless_host None
                   (fresh nameless_host (params "empty.yaml" "" false))))
           (eval_mode {| mid := 0; built_from := cfg_nameless;
                         net_img_size := 4; net_num_classes := 1;
                         on_device := CPU; weights := RandomInit;
                         training := true |})
           cfg_nameless); reflexivity.
Defined.
